(** * Pixel-Art-Converter: the dither/palette math and the frame processor

    A shallow embedding of [src/utils/dither.ts] and of the [processFrame]
    pipeline and its scheduling effect in [src/components/RetroCanvas.tsx].

    Conventions.
    - A JavaScript [number] that takes part in fractional arithmetic (luma,
      contrast, dither offset, threshold) is an IEEE-754 binary64 value:
      [spec_float] with precision 53 and maximal exponent 1024, rounded to
      nearest even by the Standard Library's executable specification.
    - A JavaScript [number] that is integer valued by construction (loop
      counters, pixel dimensions, array indices, bytes of a pixel buffer) is
      a [Z] or a [nat].
    - A [Uint8ClampedArray] is a [list Z]; reads out of range give
      [undefined], writes out of range are dropped and written values are
      clamped. *)

From Stdlib Require Import ZArith List Bool Ascii String Lia.
From Stdlib Require Import Floats.SpecFloat.
From stdpp Require Import base list.
Import ListNotations.

Local Open Scope Z_scope.

(* ===================================================================== *)
(** ** JavaScript numbers and completions *)
(* ===================================================================== *)

Module JS.

Definition prec : Z := 53.
Definition emax : Z := 1024.

Abbreviation num := spec_float.

Definition NaN : num := S754_nan.

(** An integer literal, or an integer read from a typed array, as a
    number. *)
Definition ofZ (z : Z) : num := binary_normalize prec emax z 0 false.

Definition add : num -> num -> num := SFadd prec emax.
Definition sub : num -> num -> num := SFsub prec emax.
Definition mul : num -> num -> num := SFmul prec emax.
Definition div : num -> num -> num := SFdiv prec emax.

(** A decimal literal [n / 10^k] denotes the double nearest to that
    rational, which is what the correctly rounded division of the two
    (exactly representable) integers returns. *)
Definition decimal (n : Z) (k : nat) : num := div (ofZ n) (ofZ (10 ^ Z.of_nat k)).

(** [a > b]: false as soon as one side is NaN. *)
Definition gt (a b : num) : bool :=
  match SFcompare a b with Some Gt => true | _ => false end.

Definition lt (a b : num) : bool := SFltb a b.
Definition le (a b : num) : bool := SFleb a b.

(** [Math.min]: NaN is contagious and [-0] is smaller than [+0]. *)
Definition min (a b : num) : num :=
  match SFcompare a b with
  | None => NaN
  | Some Lt => a
  | Some Gt => b
  | Some Eq => match a with S754_zero true => a | _ => b end
  end.

(** The integer part of [m * 2^e] rounded towards minus infinity. *)
Definition floorMag (m : positive) (e : Z) : Z :=
  if 0 <=? e then Z.pos m * 2 ^ e else Z.pos m / 2 ^ (- e).

(** [Math.floor] of a number that is then used as an integer; [None]
    when the result is not an integer (NaN and the infinities). *)
Definition floorZ (f : num) : option Z :=
  match f with
  | S754_zero _ => Some 0
  | S754_finite false m e => Some (floorMag m e)
  | S754_finite true m e =>
      Some (if 0 <=? e then - (Z.pos m * 2 ^ e) else - ((Z.pos m + 2 ^ (- e) - 1) / 2 ^ (- e)))
  | _ => None
  end.

(** Round [m * 2^e] to the nearest integer, ties to even. *)
Definition roundHalfEven (m : positive) (e : Z) : Z :=
  if 0 <=? e then Z.pos m * 2 ^ e
  else
    let d := 2 ^ (- e) in
    let q := Z.pos m / d in
    let r := Z.pos m mod d in
    match 2 * r ?= d with
    | Lt => q
    | Gt => q + 1
    | Eq => if Z.even q then q else q + 1
    end.

(** The conversion applied when a number is stored in a
    [Uint8ClampedArray]. *)
Definition toUint8Clamp (f : num) : Z :=
  match f with
  | S754_nan => 0
  | S754_zero _ => 0
  | S754_infinity s => if s then 0 else 255
  | S754_finite true _ _ => 0
  | S754_finite false m e => Z.min 255 (roundHalfEven m e)
  end.

(** Reading [a[k]] from an array: [undefined] for a negative or too large
    index. *)
Definition index {A} (a : list A) (k : Z) : option A :=
  if k <? 0 then None else a !! Z.to_nat k.

(** [None] is [undefined]; used in arithmetic it becomes NaN. *)
Definition toNumber (v : option Z) : num :=
  match v with Some z => ofZ z | None => NaN end.

Inductive error := TypeError | DOMException.

(** The result of evaluating a piece of code: a value, or an exception
    that unwinds to the caller. *)
Inductive completion (A : Type) :=
| Normal (a : A)
| Throw (e : error).
Arguments Normal {A} a.
Arguments Throw {A} e.

Definition bind {A B} (c : completion A) (k : A -> completion B) : completion B :=
  match c with
  | Normal a => k a
  | Throw e => Throw e
  end.

(** The integers a byte can hold. *)
Definition bytes : list Z := map Z.of_nat (seq 0 256).

(** Every channel of a parsed colour is an integer between 0 and 255. *)
Definition isByte (v : num) : Prop := exists n : Z, 0 <= n <= 255 /\ v = ofZ n.

End JS.

#[global] Instance completion_bind : MBind JS.completion :=
  fun A B k c => JS.bind c k.
#[global] Instance completion_ret : MRet JS.completion := @JS.Normal.

(* ===================================================================== *)
(** ** Regular expressions and [parseInt]

    The fragment of the language's backtracking matcher that the pattern of
    [hexToRgb] uses: assertions, characters and classes, a greedy optional
    item, bounded repetition, capture groups and concatenation, with the
    [i] flag. Strings are lists of code units; a code unit above 255
    behaves, for the patterns and digits below, like any other character
    that is not a hexadecimal digit. *)
(* ===================================================================== *)

Module RegExp.

Inductive node :=
| Epsilon
| AssertStart                                   (* ^ *)
| AssertEnd                                     (* $ *)
| Char (c : ascii)
| CharClass (ranges : list (ascii * ascii))     (* [a-f\d] *)
| Optional (r : node)                           (* r? *)
| Times (n : nat) (r : node)                    (* r{n} *)
| Group (k : nat) (r : node)                    (* k-th capturing ( ) *)
| Cat (r1 r2 : node).

Record regexp := { pattern : node; ignoreCase : bool; nGroups : nat }.

(** Position in the input and the captures made so far; capture [0] is
    reserved for the whole match. *)
Record state := { endIndex : nat; captures : list (option (list ascii)) }.

Definition toUpperCase (c : ascii) : ascii :=
  let n := nat_of_ascii c in
  if ((97 <=? n) && (n <=? 122))%nat then ascii_of_nat (n - 32) else c.

Definition canonicalize (ic : bool) (c : ascii) : ascii :=
  if ic then toUpperCase c else c.

Definition charsOf (range : ascii * ascii) : list ascii :=
  let lo := nat_of_ascii (fst range) in
  let hi := nat_of_ascii (snd range) in
  map ascii_of_nat (seq lo (S hi - lo)).

Definition classMatches (ic : bool) (ranges : list (ascii * ascii)) (ch : ascii) : bool :=
  existsb (fun range =>
             existsb (fun c => Ascii.eqb (canonicalize ic c) (canonicalize ic ch))
                     (charsOf range))
          ranges.

Definition slice (input : list ascii) (from to : nat) : list ascii :=
  take (to - from) (drop from input).

Definition step (st : state) : state :=
  {| endIndex := S (endIndex st); captures := captures st |}.

(** [matcher ic input r st k]: match [r] at [st], then continue with
    [k]; [None] is failure, on which the caller backtracks. *)
Fixpoint matcher (ic : bool) (input : list ascii) (r : node)
         (st : state) (k : state -> option state) {struct r} : option state :=
  match r with
  | Epsilon => k st
  | AssertStart => if (endIndex st =? 0)%nat then k st else None
  | AssertEnd => if (endIndex st =? length input)%nat then k st else None
  | Char c =>
      match input !! endIndex st with
      | Some ch =>
          if Ascii.eqb (canonicalize ic ch) (canonicalize ic c) then k (step st) else None
      | None => None
      end
  | CharClass ranges =>
      match input !! endIndex st with
      | Some ch => if classMatches ic ranges ch then k (step st) else None
      | None => None
      end
  | Optional r1 =>
      match matcher ic input r1 st k with
      | Some st' => Some st'
      | None => k st
      end
  | Times n r1 =>
      (fix rep (n : nat) (st : state) : option state :=
         match n with
         | O => k st
         | S n' => matcher ic input r1 st (rep n')
         end) n st
  | Group i r1 =>
      matcher ic input r1 st
              (fun st' =>
                 k {| endIndex := endIndex st';
                      captures := <[i := Some (slice input (endIndex st) (endIndex st'))]>
                                    (captures st') |})
  | Cat r1 r2 => matcher ic input r1 st (fun st' => matcher ic input r2 st' k)
  end.

Definition matchAt (rx : regexp) (input : list ascii) (start : nat) : option (list (option (list ascii))) :=
  match matcher (ignoreCase rx) input (pattern rx)
                {| endIndex := start; captures := replicate (S (nGroups rx)) None |} Some with
  | Some st => Some (<[0%nat := Some (slice input start (endIndex st))]> (captures st))
  | None => None
  end.

(** The search of [exec] over the start positions [start], [start+1],
    ... while [fuel] lasts. *)
Fixpoint search (rx : regexp) (input : list ascii) (fuel start : nat) :=
  match matchAt rx input start with
  | Some result => Some result
  | None =>
      match fuel with
      | O => None
      | S fuel' => search rx input fuel' (S start)
      end
  end.

(** [rx.exec(s)] for a pattern without the [g] and [y] flags: the
    leftmost match, tried at every index from [0] to the length of the
    input; [None] is [null]. *)
Definition exec (rx : regexp) (s : string) : option (list (option (list ascii))) :=
  let input := list_ascii_of_string s in
  search rx input (length input) 0.

(** [result[k]] of a match array. *)
Definition group (result : list (option (list ascii))) (k : nat) : option (list ascii) :=
  default None (result !! k).

End RegExp.

Module ParseInt.
Import JS.

Definition isWhiteSpace (c : ascii) : bool :=
  existsb (Nat.eqb (nat_of_ascii c)) [9; 10; 11; 12; 13; 32; 160]%nat.

Fixpoint trimStart (s : list ascii) : list ascii :=
  match s with
  | c :: rest => if isWhiteSpace c then trimStart rest else s
  | [] => []
  end.

(** The value of a digit in a radix up to 36, if it is one. *)
Definition digitValue (radix : Z) (c : ascii) : option Z :=
  let n := Z.of_nat (nat_of_ascii c) in
  let v := if (48 <=? n) && (n <=? 57) then Some (n - 48)
           else if (97 <=? n) && (n <=? 122) then Some (n - 87)
           else if (65 <=? n) && (n <=? 90) then Some (n - 55)
           else None in
  match v with
  | Some d => if d <? radix then Some d else None
  | None => None
  end.

(** The longest prefix of digits, read left to right; [None] when there
    is no digit at all. *)
Fixpoint digits (radix : Z) (acc : option Z) (s : list ascii) : option Z :=
  match s with
  | c :: rest =>
      match digitValue radix c with
      | Some d => digits radix (Some (default 0 acc * radix + d)) rest
      | None => acc
      end
  | [] => acc
  end.

Definition stripSign (s : list ascii) : bool * list ascii :=
  match s with
  | "-"%char :: rest => (true, rest)
  | "+"%char :: rest => (false, rest)
  | _ => (false, s)
  end.

Definition stripHexPrefix (s : list ascii) : list ascii :=
  match s with
  | "0"%char :: "x"%char :: rest => rest
  | "0"%char :: "X"%char :: rest => rest
  | _ => s
  end.

(** [parseInt(v, 16)]; [None] is [undefined], whose string has no
    hexadecimal digit in front. *)
Definition parseInt16 (v : option (list ascii)) : num :=
  match v with
  | None => NaN
  | Some s =>
      let '(neg, body) := stripSign (trimStart s) in
      match digits 16 None (stripHexPrefix body) with
      | None => NaN
      | Some n => if neg then SFopp (ofZ n) else ofZ n
      end
  end.

End ParseInt.

(* ===================================================================== *)
(** ** src/utils/dither.ts *)
(* ===================================================================== *)

Module Dither.
Import JS RegExp ParseInt.

(** Standard Bayer 4x4 matrix. *)
Definition bayerMatrix4x4 : list (list Z) :=
  [ [0; 8; 2; 10];
    [12; 4; 14; 6];
    [3; 11; 1; 9];
    [15; 7; 13; 5] ].

(** [getBayerValue(x, y)]. [%] is the truncating remainder; indexing
    [undefined] (a row that does not exist) raises a TypeError, and an
    entry that does not exist is [undefined], hence NaN after the
    division. *)
Definition getBayerValue (x y : Z) : completion num :=
  let matrixSize := 4 in
  match index bayerMatrix4x4 (Z.rem y matrixSize) with
  | None => Throw TypeError
  | Some row =>
      let value := toNumber (index row (Z.rem x matrixSize)) in
      Normal (mul (div value (ofZ 16)) (ofZ 255))
  end.

(** The results over the tile [0..3] x [0..3], row by row. *)
Definition tile : list (completion num) :=
  y ← [0; 1; 2; 3]; x ← [0; 1; 2; 3]; [getBayerValue x y].

Record rgb := { r : num; g : num; b : num }.

(** [/^#?([a-f\d]{2})([a-f\d]{2})([a-f\d]{2})$/i] *)
Definition hexDigit : node := CharClass [("a", "f"); ("0", "9")]%char.

Definition hexPattern : regexp :=
  {| pattern :=
       Cat AssertStart
      (Cat (Optional (Char "#"))
      (Cat (Group 1 (Times 2 hexDigit))
      (Cat (Group 2 (Times 2 hexDigit))
      (Cat (Group 3 (Times 2 hexDigit))
           AssertEnd))));
     ignoreCase := true;
     nGroups := 3 |}.

Definition hexToRgb (hex : string) : rgb :=
  match exec hexPattern hex with
  | Some result =>
      {| r := parseInt16 (group result 1);
         g := parseInt16 (group result 2);
         b := parseInt16 (group result 3) |}
  | None => {| r := ofZ 0; g := ofZ 0; b := ofZ 0 |}
  end.

End Dither.

(* ===================================================================== *)
(** ** A hex colour as the spec describes it

    A second reading of [hexToRgb], written from the description of the
    function and not from its pattern, to compare the function with. *)
(* ===================================================================== *)

Module HexColor.

Fixpoint indexOf (c : ascii) (l : list ascii) : option nat :=
  match l with
  | [] => None
  | d :: l' => if Ascii.eqb c d then Some 0%nat else S <$> indexOf c l'
  end.

(** The value of a hexadecimal digit, in either case: its place among
    the sixteen digits. *)
Definition hexDigitValue (c : ascii) : option nat :=
  match indexOf c (list_ascii_of_string "0123456789abcdef") with
  | Some v => Some v
  | None => indexOf c (list_ascii_of_string "0123456789ABCDEF")
  end.

Definition isHexDigit (c : ascii) : bool := bool_decide (is_Some (hexDigitValue c)).

Definition hexValue (c : ascii) : Z := Z.of_nat (default 0%nat (hexDigitValue c)).

(** The six digits of a string that consists of exactly six hexadecimal
    digits after an optional leading [#]. *)
Definition sixHexDigits (hex : string) : option (list ascii) :=
  let l := list_ascii_of_string hex in
  let body := match l with
              | c :: rest => if Ascii.eqb c "#" then rest else l
              | [] => l
              end in
  if (length body =? 6)%nat && forallb isHexDigit body then Some body else None.

End HexColor.

(* ===================================================================== *)
(** ** src/types.ts *)
(* ===================================================================== *)

Module Types.
Import JS.

Record RetroSettings := {
  pixelSize : Z;           (* 1 to 20 *)
  threshold : num;         (* 0 to 255 *)
  ditherAmount : num;      (* 0 to 1 *)
  contrast : num;          (* 0.5 to 2.0 *)
  colorDark : string;      (* Hex *)
  colorLight : string;     (* Hex *)
  invert : bool;
  gridLine : bool
}.

(** [{ ...settings, threshold: t }] *)
Definition withThreshold (t : num) (s : RetroSettings) : RetroSettings :=
  {| pixelSize := pixelSize s; threshold := t; ditherAmount := ditherAmount s;
     contrast := contrast s; colorDark := colorDark s; colorLight := colorLight s;
     invert := invert s; gridLine := gridLine s |}.

(** [{ ...settings, invert: i }] *)
Definition withInvert (i : bool) (s : RetroSettings) : RetroSettings :=
  {| pixelSize := pixelSize s; threshold := threshold s; ditherAmount := ditherAmount s;
     contrast := contrast s; colorDark := colorDark s; colorLight := colorLight s;
     invert := i; gridLine := gridLine s |}.

(** ['image' | 'video' | null] *)
Inductive FileKind := image | video.
Definition FileType := option FileKind.

Record UploadedFile := { url : string; type : FileType; name : string }.

End Types.

(* ===================================================================== *)
(** ** src/components/RetroCanvas.tsx: the pixel loop *)
(* ===================================================================== *)

Module Pixels.
Import JS Dither Types.

(** [for (let k = 0; k < n; k++) body], threading the loop state and
    stopping at the first exception. *)
Fixpoint forEach {S} (ks : list nat) (body : nat -> S -> completion S) (s : S) : completion S :=
  match ks with
  | [] => Normal s
  | k :: ks' => s' ← body k s; forEach ks' body s'
  end.

Definition forRange {S} (n : nat) (body : nat -> S -> completion S) (s : S) : completion S :=
  forEach (seq 0 n) body s.

(** Swap if inverted. *)
Definition darkOf (settings : RetroSettings) : rgb :=
  let rgbDark := hexToRgb (colorDark settings) in
  let rgbLight := hexToRgb (colorLight settings) in
  if invert settings then rgbLight else rgbDark.

Definition lightOf (settings : RetroSettings) : rgb :=
  let rgbDark := hexToRgb (colorDark settings) in
  let rgbLight := hexToRgb (colorLight settings) in
  if invert settings then rgbDark else rgbLight.

(** The threshold test of the loop body on the three channels read from
    the buffer. *)
Definition isLightRgb (settings : RetroSettings) (r g b : num) (x y : nat) : completion bool :=
  (* 1. Grayscale (Luminance) *)
  let luma := add (add (mul (decimal 299 3) r) (mul (decimal 587 3) g)) (mul (decimal 114 3) b) in
  (* 2. Apply Contrast *)
  let luma := add (mul (sub luma (ofZ 128)) (contrast settings)) (ofZ 128) in
  (* 3. Dithering calculation *)
  ditherVal ← getBayerValue (Z.of_nat x) (Z.of_nat y);
  let ditherOffset := mul (sub ditherVal (ofZ 128)) (ditherAmount settings) in
  (* 4. Thresholding *)
  mret (gt (add luma ditherOffset) (threshold settings)).

Definition pixelIndex (procW x y : nat) : nat := ((y * procW + x) * 4)%nat.

Definition isLightAt (settings : RetroSettings) (procW : nat) (data : list Z) (x y : nat)
  : completion bool :=
  let i := pixelIndex procW x y in
  let r := toNumber (data !! i) in
  let g := toNumber (data !! (i + 1)%nat) in
  let b := toNumber (data !! (i + 2)%nat) in
  isLightRgb settings r g b x y.

(** One iteration of the inner loop. The second component of the state
    is auxiliary: it counts the iterations that took the light branch and
    is not a variable of the program. *)
Definition shade (settings : RetroSettings) (procW : nat) (y x : nat) (st : list Z * nat)
  : completion (list Z * nat) :=
  let '(data, lights) := st in
  let i := pixelIndex procW x y in
  isLightAt settings procW data x y ≫= fun isLight : bool =>
  (* 5. Map to Palette *)
  let finalColor := if isLight then lightOf settings else darkOf settings in
  let data := <[i := toUint8Clamp (r finalColor)]> data in
  let data := <[(i + 1)%nat := toUint8Clamp (g finalColor)]> data in
  let data := <[(i + 2)%nat := toUint8Clamp (b finalColor)]> data in
  let data := <[(i + 3)%nat := 255]> data in
  mret (data, if isLight then S lights else lights).

Definition ditherLoop (settings : RetroSettings) (procW procH : nat) (data : list Z)
  : completion (list Z * nat) :=
  forRange procH (fun y => forRange procW (shade settings procW y)) (data, 0%nat).

(** The buffer after the loop. *)
Definition ditherPixels (settings : RetroSettings) (procW procH : nat) (data : list Z)
  : completion (list Z) :=
  st ← ditherLoop settings procW procH data; mret (fst st).

(** How many pixels the loop classified as light. *)
Definition lightCount (settings : RetroSettings) (procW procH : nat) (data : list Z)
  : completion nat :=
  st ← ditherLoop settings procW procH data; mret (snd st).

(** The four bytes of the pixel at [(x, y)]. *)
Definition pixelAt (procW : nat) (data : list Z) (x y : nat) : list (option Z) :=
  let i := pixelIndex procW x y in
  [data !! i; data !! (i + 1)%nat; data !! (i + 2)%nat; data !! (i + 3)%nat].

(** *** The loop body without its plumbing

    The same expressions once the dither value is known and no exception
    is in play; the properties section shows that the loop computes
    them. *)

Definition lightRgb (settings : RetroSettings) (r g b ditherVal : num) : bool :=
  let luma := add (add (mul (decimal 299 3) r) (mul (decimal 587 3) g)) (mul (decimal 114 3) b) in
  let luma := add (mul (sub luma (ofZ 128)) (contrast settings)) (ofZ 128) in
  let ditherOffset := mul (sub ditherVal (ofZ 128)) (ditherAmount settings) in
  gt (add luma ditherOffset) (threshold settings).

(** The value [getBayerValue] computes from matrix entry [v]. *)
Definition scaled (v : Z) : num := mul (div (ofZ v) (ofZ 16)) (ofZ 255).

(** The matrix entry under [(x, y)]. *)
Definition entry (x y : nat) : Z :=
  nth (x mod 4) (nth (y mod 4) bayerMatrix4x4 []) 0.

Definition lightAt (settings : RetroSettings) (procW : nat) (data : list Z) (x y : nat) : bool :=
  let i := pixelIndex procW x y in
  lightRgb settings (toNumber (data !! i)) (toNumber (data !! (i + 1)%nat))
           (toNumber (data !! (i + 2)%nat)) (scaled (entry x y)).

Definition colorAt (settings : RetroSettings) (procW : nat) (data : list Z) (x y : nat) : rgb :=
  if lightAt settings procW data x y then lightOf settings else darkOf settings.

(** The four stores of the loop body. *)
Definition paint (c : rgb) (i : nat) (data : list Z) : list Z :=
  <[(i + 3)%nat := 255]>
    (<[(i + 2)%nat := toUint8Clamp (b c)]>
       (<[(i + 1)%nat := toUint8Clamp (g c)]>
          (<[i := toUint8Clamp (r c)]> data))).

(** The bytes of an opaque pixel of colour [c]. *)
Definition opaque (c : rgb) : list (option Z) :=
  [Some (toUint8Clamp (r c)); Some (toUint8Clamp (g c)); Some (toUint8Clamp (b c)); Some 255].

(** How many [k] below [n] satisfy [f]. *)
Fixpoint count (f : nat -> bool) (n : nat) : nat :=
  match n with
  | O => O
  | S n' => (count f n' + if f n' then 1 else 0)%nat
  end.

(** How many [(x, y)] with [x < w] and [y < h] satisfy [f]. *)
Fixpoint countRows (f : nat -> nat -> bool) (w h : nat) : nat :=
  match h with
  | O => O
  | S h' => (countRows f w h' + count (fun x => f x h') w)%nat
  end.

(** The state of the loop when the pixels with linear index below [k]
    are done: the buffer is as long as at the start, nothing at or after
    pixel [k] has been written, every pixel before [k] that lies in the
    buffer carries its final colour, which the test chose on the bytes
    the buffer had at the start. *)
Definition doneUpTo (settings : RetroSettings) (procW : nat) (data0 : list Z)
           (k : nat) (st : list Z * nat) : Prop :=
  length (fst st) = length data0 /\
  (forall j, (4 * k <= j)%nat -> fst st !! j = data0 !! j) /\
  (forall x y, (x < procW)%nat -> (y * procW + x < k)%nat ->
               (4 * (y * procW + x) + 3 < length data0)%nat ->
               pixelAt procW (fst st) x y = opaque (colorAt settings procW data0 x y)).

End Pixels.

(* ===================================================================== *)
(** ** src/components/RetroCanvas.tsx: one pass of [processFrame]

    The DOM is an input: what the refs hold and what the elements report
    when the pass runs. The pass returns the calls it made on the two
    canvases, whether it called [requestAnimationFrame], and how it
    ended. *)
(* ===================================================================== *)

Module Frame.
Import JS Dither Types Pixels.

Record Canvas := { width : Z; height : Z; context2d : bool }.

Record Dom := {
  canvasRef : option Canvas;
  containerRef : option (Z * Z);        (* clientWidth, clientHeight *)
  videoRef : option (Z * Z);            (* videoWidth, videoHeight *)
  imageRef : option (Z * Z);            (* naturalWidth, naturalHeight *)
  (** whether a fresh canvas hands out a 2D context *)
  offscreenContext2d : bool;
  (** the source drawn at [procW] x [procH] and read back with
      [getImageData], which can raise *)
  imageData : Z -> Z -> completion (list Z)
}.

(** Calls that write to a canvas. *)
Inductive call :=
| Resize (w h : Z)                                   (* canvas.width = w; canvas.height = h *)
| OffscreenDrawSource (procW procH : Z)              (* offCtx.drawImage(source, 0, 0, procW, procH) *)
| OffscreenPutImageData (data : list Z)              (* offCtx.putImageData(imgData, 0, 0) *)
| SetImageSmoothingEnabled (on : bool)
| DrawOffscreen (data : list Z) (procW procH displayW displayH : Z)
                                                     (* ctx.drawImage(offCanvas, 0, 0, displayW, displayH) *)
| SetGlobalCompositeOperation (mode : string)
| SetFillStyle (style : string)
| FillRect (x y w h : Z).

Record Pass := {
  calls : list call;
  (** [requestRef.current = requestAnimationFrame(processFrame)] ran *)
  requested : bool;
  outcome : completion unit
}.

Definition returned (cs : list call) (again : bool) : Pass :=
  {| calls := cs; requested := again; outcome := Normal tt |}.

Definition raised (cs : list call) (e : error) : Pass :=
  {| calls := cs; requested := false; outcome := Throw e |}.

(** [file?.type === k] *)
Definition hasType (file : option UploadedFile) (k : FileKind) : bool :=
  match file with
  | Some f => match type f, k with
              | Some image, image => true
              | Some video, video => true
              | _, _ => false
              end
  | None => false
  end.

(** [for (let y = 0; y < displayH; y += 2) ctx.fillRect(0, y, displayW, 1)];
    [fuel] bounds the number of iterations. *)
Fixpoint scanRows (fuel : nat) (y displayW displayH : Z) : list call :=
  match fuel with
  | O => []
  | S fuel' =>
      if y <? displayH
      then FillRect 0 y displayW 1 :: scanRows fuel' (y + 2) displayW displayH
      else []
  end.

(** Optional scanlines; [displayH] iterations are more than the loop
    takes. *)
Definition scanlines (displayW displayH : Z) : list call :=
  [SetGlobalCompositeOperation "overlay"; SetFillStyle "rgba(0,0,0,0.3)"]
    ++ scanRows (Z.to_nat displayH) 0 displayW displayH
    ++ [SetGlobalCompositeOperation "source-over"].

Definition overlay (settings : RetroSettings) (displayW displayH : Z) : list call :=
  if gridLine settings then scanlines displayW displayH else [].

(** Processing resolution (downscaled). The operands are integers and
    [factor] is at least 1, so [Math.floor] of the quotient is taken to be
    the integer quotient; [floorOfQuotient] below is the computation in
    doubles, to compare with. *)
Definition procSize (settings : RetroSettings) (display : Z) : Z :=
  let factor := Z.max 1 (pixelSize settings) in
  Z.max 1 (display / factor).

(** [Math.floor(display / factor)] in doubles. *)
Definition floorOfQuotient (display factor : Z) : option Z :=
  floorZ (div (ofZ display) (ofZ factor)).

(** The integers from 0 up to [n], [n] excluded. *)
Definition below (n : Z) : list Z := map Z.of_nat (seq 0 (Z.to_nat n)).

(** Whether the doubles agree with the integer quotient for every display
    size below [displays] and every factor from 1 to [factors]. *)
Definition quotientsAgree (displays factors : Z) : bool :=
  forallb (fun f =>
             forallb (fun d =>
                        match floorOfQuotient d (f + 1) with
                        | Some q => q =? d / (f + 1)
                        | None => false
                        end)
                     (below displays))
          (below factors).

(** Aspect ratio aware dimensions for display, computed in doubles as
    the source does. *)
Definition displaySize (containerW containerH sourceW sourceH : Z) : option Z * option Z :=
  let scale := min (div (ofZ containerW) (ofZ sourceW)) (div (ofZ containerH) (ofZ sourceH)) in
  (floorZ (mul (ofZ sourceW) scale), floorZ (mul (ofZ sourceH) scale)).

(** Lines 72-178, once a source element has been picked. *)
Definition pipeline (file : option UploadedFile) (settings : RetroSettings) (dom : Dom)
           (canvas : Canvas) (containerW containerH sourceW sourceH : Z) : Pass :=
  if (sourceW =? 0) || (sourceH =? 0) then returned [] false
  else
    match displaySize containerW containerH sourceW sourceH with
    | (Some displayW, Some displayH) =>
        (* Update canvas size if changed *)
        let resize :=
          if (width canvas =? displayW) && (height canvas =? displayH)
          then [] else [Resize displayW displayH] in
        let procW := procSize settings displayW in
        let procH := procSize settings displayH in
        if negb (offscreenContext2d dom) then returned resize false
        else
          let drawn := resize ++ [OffscreenDrawSource procW procH] in
          match imageData dom procW procH with
          | Throw e => raised drawn e
          | Normal data =>
              match ditherPixels settings (Z.to_nat procW) (Z.to_nat procH) data with
              | Throw e => raised drawn e
              | Normal out =>
                  let blit :=
                    [OffscreenPutImageData out;
                     SetImageSmoothingEnabled false;
                     DrawOffscreen out procW procH displayW displayH] in
                  let painted := drawn ++ blit ++ overlay settings displayW displayH in
                  match file with
                  | Some _ => returned painted (hasType file video)
                  | None => raised painted TypeError   (* file.type *)
                  end
              end
          end
    | _ =>
        (* a display size that is not a finite number: the canvas stores 0
           and getImageData raises *)
        raised [Resize 0 0] DOMException
    end.

Definition processFrame (file : option UploadedFile) (settings : RetroSettings) (dom : Dom) : Pass :=
  match canvasRef dom, containerRef dom with
  | Some canvas, Some (containerW, containerH) =>
      if negb (context2d canvas) then returned [] false
      else
        match (if hasType file video then videoRef dom else None) with
        | Some (videoWidth, videoHeight) =>
            (* Wait for video to have dimensions *)
            if videoWidth =? 0 then returned [] true
            else pipeline file settings dom canvas containerW containerH videoWidth videoHeight
        | None =>
            match (if hasType file image then imageRef dom else None) with
            | Some (naturalWidth, naturalHeight) =>
                if naturalWidth =? 0 then returned [] false (* Wait for load *)
                else pipeline file settings dom canvas containerW containerH
                              naturalWidth naturalHeight
            | None => returned [] false   (* !source *)
            end
        end
  | _, _ => returned [] false
  end.

(** The element a pass reads from, with the dimensions it reports. *)
Definition sourceSize (file : option UploadedFile) (dom : Dom) : option (Z * Z) :=
  match (if hasType file video then videoRef dom else None) with
  | Some size => Some size
  | None => if hasType file image then imageRef dom else None
  end.

End Frame.

(* ===================================================================== *)
(** ** src/components/RetroCanvas.tsx: the frame loop effect

    The browser keeps the list of pending animation frame callbacks and
    hands out handles; the component keeps [requestRef]. A callback is the
    [processFrame] closure of one run of the effect, which captured that
    run's [file] and [settings]. *)
(* ===================================================================== *)

Module Loop.
Import JS Types Frame.

(** The closure created by [useCallback] for one commit; [gen] numbers
    the commits. *)
Record Closure := { gen : nat; cFile : option UploadedFile; cSettings : RetroSettings }.

(** A pass that ran: whose closure it was, and which effect was set up
    at that moment. *)
Record Ran := { ranGen : nat; liveGen : option nat; ranPass : Pass }.

Record World := {
  requestRef : option Z;               (* useRef<number>(): undefined at first *)
  callbacks : list (Z * Closure);      (* pending animation frame callbacks *)
  lastHandle : Z;                      (* the last handle handed out *)
  live : option nat;                   (* the effect that is set up, if any *)
  commits : nat;
  ran : list Ran
}.

Definition initial : World :=
  {| requestRef := None; callbacks := []; lastHandle := 0; live := None;
     commits := 0; ran := [] |}.

(** [requestRef.current = requestAnimationFrame(processFrame)] *)
Definition requestAnimationFrame (c : Closure) (w : World) : World :=
  let handle := lastHandle w + 1 in
  {| requestRef := Some handle;
     callbacks := callbacks w ++ [(handle, c)];
     lastHandle := handle;
     live := live w; commits := commits w; ran := ran w |}.

Definition cancelAnimationFrame (handle : Z) (w : World) : World :=
  {| requestRef := requestRef w;
     callbacks := filter (fun cb => fst cb ≠ handle) (callbacks w);
     lastHandle := lastHandle w;
     live := live w; commits := commits w; ran := ran w |}.

(** Calling [processFrame()] of closure [c]. *)
Definition runPass (dom : Dom) (c : Closure) (w : World) : World :=
  let p := processFrame (cFile c) (cSettings c) dom in
  let w' :=
    {| requestRef := requestRef w; callbacks := callbacks w;
       lastHandle := lastHandle w; live := live w; commits := commits w;
       ran := ran w ++ [{| ranGen := gen c; liveGen := live w; ranPass := p |}] |} in
  if requested p then requestAnimationFrame c w' else w'.

(** The function returned by the effect:
    [if (requestRef.current) cancelAnimationFrame(requestRef.current)];
    [undefined] and [0] are falsy. *)
Definition cleanup (w : World) : World :=
  let w' :=
    match requestRef w with
    | Some handle => if handle =? 0 then w else cancelAnimationFrame handle w
    | None => w
    end in
  {| requestRef := requestRef w'; callbacks := callbacks w';
     lastHandle := lastHandle w'; live := None; commits := commits w'; ran := ran w' |}.

(** The body of the effect, run with the closure of this commit. *)
Definition effect (dom : Dom) (c : Closure) (w : World) : World :=
  let w' :=
    {| requestRef := requestRef w; callbacks := callbacks w;
       lastHandle := lastHandle w; live := Some (gen c); commits := S (commits w);
       ran := ran w |} in
  if hasType (cFile c) video
  then requestAnimationFrame c w'
  else runPass dom c w'.   (* For images, run once when dependencies change *)

Inductive event :=
(** first render, or a render in which [file] or [settings] changed:
    the previous effect is cleaned up, then the effect runs *)
| Commit (file : option UploadedFile) (settings : RetroSettings) (dom : Dom)
(** the component is removed *)
| Unmount
(** the browser runs the callbacks that are pending at this refresh *)
| AnimationFrame (dom : Dom).

Definition react (w : World) (e : event) : World :=
  match e with
  | Commit file settings dom =>
      let w' :=
        match live w with
        | Some _ => cleanup w
        | None =>
            (* a new instance of the component: fresh refs *)
            {| requestRef := None; callbacks := callbacks w;
               lastHandle := lastHandle w; live := None; commits := commits w;
               ran := ran w |}
        end in
      effect dom {| gen := commits w'; cFile := file; cSettings := settings |} w'
  | Unmount =>
      match live w with
      | Some _ => cleanup w
      | None => w
      end
  | AnimationFrame dom =>
      let pending := callbacks w in
      let w' :=
        {| requestRef := requestRef w; callbacks := [];
           lastHandle := lastHandle w; live := live w; commits := commits w;
           ran := ran w |} in
      fold_left (fun w cb => runPass dom (snd cb) w) pending w'
  end.

Definition run (es : list event) (w : World) : World := fold_left react es w.

(** What holds of every world the events can produce: at most one
    callback is pending; it is the one [requestRef] names, with a handle
    that is not falsy, and it belongs to the effect that is set up; and
    every pass that ran was a pass of the effect set up at that moment. *)
Definition tidy (w : World) : Prop :=
  0 <= lastHandle w /\
  (callbacks w = [] \/
   exists h c, callbacks w = [(h, c)] /\ requestRef w = Some h /\
               0 < h <= lastHandle w /\ live w = Some (gen c)) /\
  Forall (fun p => liveGen p = Some (ranGen p)) (ran w).

End Loop.

(* ===================================================================== *)
(** ** A page to run the loop on *)
(* ===================================================================== *)

Module Scenario.
Import JS Types Frame.

(** [DEFAULT_SETTINGS] of the application. *)
Definition DEFAULT_SETTINGS : RetroSettings :=
  {| pixelSize := 6; threshold := ofZ 110; ditherAmount := decimal 25 2;
     contrast := decimal 11 1; colorDark := "#1a1a14"; colorLight := "#e6e0d4";
     invert := false; gridLine := false |}.

Definition clip : UploadedFile :=
  {| url := "blob:clip"; type := Some video; name := "clip.webm" |}.

(** A mounted component with a 12 x 6 display canvas in a 12 x 6
    container, a video element that reports [videoWidth] x [videoHeight],
    and a mid-grey source. *)
Definition page (videoWidth videoHeight : Z) (offscreen : bool) : Dom :=
  {| canvasRef := Some {| width := 12; height := 6; context2d := true |};
     containerRef := Some (12, 6);
     videoRef := Some (videoWidth, videoHeight);
     imageRef := Some (0, 0);
     offscreenContext2d := offscreen;
     imageData := fun w h => Normal (replicate (Z.to_nat (4 * w * h)) 128) |}.

(** The same page with a ready 4 x 2 video whose pixels cannot be read
    back: [getImageData] raises. *)
Definition unreadable : Dom :=
  {| canvasRef := canvasRef (page 4 2 true);
     containerRef := containerRef (page 4 2 true);
     videoRef := videoRef (page 4 2 true);
     imageRef := imageRef (page 4 2 true);
     offscreenContext2d := true;
     imageData := fun _ _ => Throw DOMException |}.

End Scenario.

(* ===================================================================== *)
(** ** src/unnamed/part_000: the control panel

    The updates the panel hands to [setSettings], and the hex field of its
    colour pickers. *)
(* ===================================================================== *)

Module ControlPanel.
Import RegExp Types.


(** [handleChange('gridLine', checked)]: the update handed to
    [setSettings]. *)
Definition handleGridLine (checked : bool) (prev : RetroSettings) : RetroSettings :=
  {| pixelSize := pixelSize prev; threshold := threshold prev;
     ditherAmount := ditherAmount prev; contrast := contrast prev;
     colorDark := colorDark prev; colorLight := colorLight prev;
     invert := invert prev; gridLine := checked |}.

(** [/^#[0-9A-F]{6}$/i] *)
Definition fieldDigit : node := CharClass [("0", "9"); ("A", "F")]%char.

Definition fieldPattern : regexp :=
  {| pattern := Cat AssertStart (Cat (Char "#") (Cat (Times 6 fieldDigit) AssertEnd));
     ignoreCase := true;
     nGroups := 0 |}.

(** [rx.test(s)] *)
Definition test (rx : regexp) (s : string) : bool :=
  match exec rx s with
  | Some _ => true
  | None => false
  end.

(** What [handleHexChange] does with the value of its event: the text it
    keeps in [localHex], and the value it hands to [onChange], if any. *)
Record HexChange := { localHex : string; changed : option string }.

Definition handleHexChange (newVal : string) : HexChange :=
  {| localHex := newVal;
     (* Basic Hex validation *)
     changed := if test fieldPattern newVal then Some newVal else None |}.

(** The [onChange] of the text input: the event with ['#' + e.target.value]
    for its value. *)
Definition hexInput (typed : string) : HexChange :=
  handleHexChange (String "#" typed).

End ControlPanel.

(* ===================================================================== *)
(** ** src/types.ts (App): the selected file and its object URL *)
(* ===================================================================== *)

Module App.
Import Types.

(** A [File] of the browser: its MIME type and its name. *)
Record File := { fileType : string; fileName : string }.

(** [s.startsWith(p)] *)
Definition startsWith (s p : string) : bool := String.prefix p s.

(** The [file] state of the component and the browser's record of the
    object URLs of selected files: those handed out by
    [URL.createObjectURL], and the arguments of [URL.revokeObjectURL].
    The recording handlers make and revoke a URL of their own inside one
    handler and touch neither [file] nor its URL; they are left out. *)
Record State := {
  file : option UploadedFile;      (* useState<UploadedFile | null>(null) *)
  mounted : bool;
  created : list string;
  revoked : list string
}.

Definition start : State :=
  {| file := None; mounted := true; created := []; revoked := [] |}.

Definition revokeObjectURL (u : string) (s : State) : State :=
  {| file := file s; mounted := mounted s; created := created s;
     revoked := revoked s ++ [u] |}.

(** [if (file) URL.revokeObjectURL(file.url)], with the [file] that the
    closure captured. *)
Definition revokeCaptured (captured : option UploadedFile) (s : State) : State :=
  match captured with
  | Some f => revokeObjectURL (url f) s
  | None => s
  end.

(** [handleFileSelect] of a render in which [file] was [captured]; [u] is
    the URL that [URL.createObjectURL] hands out. *)
Definition handleFileSelect (captured : option UploadedFile) (selectedFile : File)
           (u : string) (s : State) : State :=
  (* Revoke old url if exists *)
  let s' := revokeCaptured captured s in
  (* Reset recording state if changing file: see [State] *)
  let type := if startsWith (fileType selectedFile) "video" then video else image in
  {| file := Some {| url := u; type := Some type; name := fileName selectedFile |};
     mounted := mounted s';
     created := created s' ++ [u];
     revoked := revoked s' |}.

(** The CLOSE button: [setFile(null)]. *)
Definition close (s : State) : State :=
  {| file := None; mounted := mounted s; created := created s; revoked := revoked s |}.

Inductive action :=
(** a file dropped on, or picked in, the dropzone *)
| Select (selectedFile : File) (u : string)
(** a click on CLOSE *)
| CloseFile
(** the application is removed *)
| Leave.

Definition handle (s : State) (e : action) : State :=
  if negb (mounted s) then s
  else
    match e with
    | Select selectedFile u =>
        (* the dropzone is rendered only while [file] is null, with the
           [handleFileSelect] of that render *)
        match file s with
        | None => handleFileSelect (file s) selectedFile u s
        | Some _ => s
        end
    | CloseFile =>
        (* the button is rendered only while [file] is set *)
        match file s with
        | Some _ => close s
        | None => s
        end
    | Leave =>
        (* the clean-up of the effect with no dependencies: the closure of
           the first render, where [file] is the initial state *)
        let s' := revokeCaptured (file start) s in
        {| file := file s'; mounted := false; created := created s';
           revoked := revoked s' |}
    end.

Definition session (es : list action) (s : State) : State := fold_left handle es s.

(** Select a file and close it again, once for each URL of [us]. *)
Definition cycles (selectedFile : File) (us : list string) : list action :=
  u ← us; [Select selectedFile u; CloseFile].

End App.

(* ===================================================================== *)
(** ** Notions the properties below are stated with *)
(* ===================================================================== *)

Module Notions.
Import JS RegExp Types Pixels Frame Loop.


(** The luma of the grey [(v, v, v)] after the contrast step with contrast
    1, as the loop computes it. *)
Definition greyLuma (v : Z) : num :=
  let luma := add (add (mul (decimal 299 3) (ofZ v)) (mul (decimal 587 3) (ofZ v)))
                  (mul (decimal 114 3) (ofZ v)) in
  add (mul (sub luma (ofZ 128)) (ofZ 1)) (ofZ 128).

(** Whether, for every [v] in the list, the luma of the grey [v] lies above
    the integer below [v] and not above [v] itself, and [v - 1], [v] are in
    order as doubles. *)
Definition greysBracketed (vs : list Z) : bool :=
  forallb (fun v => negb (gt (greyLuma v) (ofZ v))
                    && gt (greyLuma v) (ofZ (v - 1))
                    && le (ofZ (v - 1)) (ofZ v)
                    && le (ofZ v) (ofZ v))
          vs.

(** The calls of the scanline overlay: a composite operation, a fill style,
    or a band one pixel high from the left edge. *)
Definition onlyScanlineCalls (added : list call) : Prop :=
  forall c, c ∈ added ->
            (exists mode, c = SetGlobalCompositeOperation mode) \/
            (exists style, c = SetFillStyle style) \/
            (exists y w, c = FillRect 0 y w 1).

(** A pass that differs from another one by scanline calls at its end. *)
Definition extends (plain lined : Pass) : Prop :=
  requested lined = requested plain /\
  outcome lined = outcome plain /\
  exists added, calls lined = calls plain ++ added /\ onlyScanlineCalls added.

(** The record of a pass of commit [g] with [file] and [settings] on [dom],
    run while the effect of that commit was set up. *)
Definition passOf (g : nat) (file : option UploadedFile) (settings : RetroSettings)
           (dom : Dom) : Ran :=
  {| ranGen := g; liveGen := Some g; ranPass := processFrame file settings dom |}.

End Notions.

(* ===================================================================== *)
(** * Properties *)
(* ===================================================================== *)

Import JS RegExp ParseInt Dither HexColor Types Pixels Frame Loop Scenario.

(** ** Numbers *)

Section Numbers.

(** The comparison of doubles is transitive in the form the threshold
    test needs: something above [t2] is above every [t1] below [t2]. *)
Lemma gt_le_trans (v t1 t2 : num) :
  gt v t2 = true -> le t1 t2 = true -> gt v t1 = true.
Proof.
  unfold gt, le, SFleb.
  destruct v as [sv|sv| |sv mv ev], t2 as [s2|s2| |s2 m2 e2], t1 as [s1|s1| |s1 m1 e1];
    cbn; try discriminate; try reflexivity;
    repeat match goal with s : bool |- _ => destruct s end;
    cbn; try discriminate; try reflexivity.
  all: repeat match goal with
         | |- context [(?a ?= ?b)%Z] => destruct (Z.compare_spec a b)
         | |- context [Pos.compare_cont Eq ?a ?b] =>
             change (Pos.compare_cont Eq a b) with (Pos.compare a b);
             destruct (Pos.compare_spec a b)
         end; cbn; try discriminate; try reflexivity; try lia.
Qed.

Lemma bytes_spec (n : Z) : 0 <= n <= 255 -> n ∈ bytes.
Proof.
  intros H. unfold bytes. apply list_elem_of_fmap. exists (Z.to_nat n).
  split; [lia|]. apply list_elem_of_In, in_seq. lia.
Qed.

(** Storing an integer between 0 and 255 in a clamped byte array and
    reading it back loses nothing. *)
Lemma toUint8Clamp_ofZ (n : Z) : 0 <= n <= 255 -> toUint8Clamp (ofZ n) = n.
Proof.
  intros H. apply bytes_spec in H. revert n H. apply Forall_forall.
  apply (bool_decide_unpack _). vm_compute. reflexivity.
Qed.

End Numbers.

(** ** [getBayerValue] *)

Section Bayer.

Lemma rem_of_nat (x : nat) : Z.rem (Z.of_nat x) 4 = Z.of_nat (x mod 4).
Proof. rewrite Z.rem_mod_nonneg by lia. rewrite Nat2Z.inj_mod. reflexivity. Qed.

Lemma getBayerValue_of_nat (x y : nat) :
  getBayerValue (Z.of_nat x) (Z.of_nat y) = Normal (scaled (entry x y)).
Proof.
  unfold getBayerValue, entry. rewrite !rem_of_nat.
  pose proof (Nat.mod_upper_bound x 4 ltac:(lia)) as Hx.
  pose proof (Nat.mod_upper_bound y 4 ltac:(lia)) as Hy.
  destruct (x mod 4)%nat as [|[|[|[|?]]]]; try lia;
    destruct (y mod 4)%nat as [|[|[|[|?]]]]; try lia; reflexivity.
Qed.

End Bayer.

(** C2. For all non-negative integers [x] and [y], [getBayerValue x y] is
    [M[y mod 4][x mod 4] / 16 * 255] for the matrix [M] with rows
    0 8 2 10 / 12 4 14 6 / 3 11 1 9 / 15 7 13 5; the result is at least 0
    and below 255; and over one 4x4 tile the sixteen results are the
    values 0, 8, 2, 10, 12, 4, 14, 6, 3, 11, 1, 9, 15, 7, 13, 5 scaled by
    255/16, each once. *)
Theorem getBayerValue_matrix :
  let M := [[0; 8; 2; 10]; [12; 4; 14; 6]; [3; 11; 1; 9]; [15; 7; 13; 5]] in
  (forall x y : nat,
      exists v,
        M !! (y mod 4)%nat ≫= (.!! (x mod 4)%nat) = Some v /\
        getBayerValue (Z.of_nat x) (Z.of_nat y)
          = Normal (mul (div (ofZ v) (ofZ 16)) (ofZ 255)) /\
        le (ofZ 0) (mul (div (ofZ v) (ofZ 16)) (ofZ 255)) = true /\
        lt (mul (div (ofZ v) (ofZ 16)) (ofZ 255)) (ofZ 255) = true)
  /\ tile = map (fun v => Normal (mul (ofZ v) (div (ofZ 255) (ofZ 16))))
                [0; 8; 2; 10; 12; 4; 14; 6; 3; 11; 1; 9; 15; 7; 13; 5]
  /\ NoDup tile.
Proof.
  cbv zeta. split; [|split].
  - intros x y. rewrite getBayerValue_of_nat. unfold entry, scaled.
    pose proof (Nat.mod_upper_bound x 4 ltac:(lia)) as Hx.
    pose proof (Nat.mod_upper_bound y 4 ltac:(lia)) as Hy.
    destruct (x mod 4)%nat as [|[|[|[|?]]]]; try lia;
      destruct (y mod 4)%nat as [|[|[|[|?]]]]; try lia;
      eexists; (split; [reflexivity|]); repeat split; vm_compute; reflexivity.
  - vm_compute. reflexivity.
  - assert (Hinj : NoDup (map (fun c => match c with
                                        | Normal v => floorZ (mul v (ofZ 16))
                                        | Throw _ => None
                                        end) tile)).
    { apply (bool_decide_unpack _). vm_compute. reflexivity. }
    revert Hinj. apply NoDup_fmap_1.
Qed.

(** ** [hexToRgb] *)

Section HexToRgb.

Ltac every_ascii c := destruct c as [[] [] [] [] [] [] [] []].

Lemma classMatches_hexDigit (c : ascii) :
  classMatches true [("a", "f"); ("0", "9")]%char c = isHexDigit c.
Proof. every_ascii c; vm_compute; reflexivity. Qed.

Lemma canonical_hash (c : ascii) :
  Ascii.eqb (canonicalize true c) (canonicalize true "#") = Ascii.eqb c "#".
Proof. every_ascii c; vm_compute; reflexivity. Qed.

Lemma digitValue_hex (c : ascii) :
  isHexDigit c = true -> digitValue 16 c = Some (hexValue c).
Proof. every_ascii c; vm_compute; congruence. Qed.

Lemma isWhiteSpace_hex (c : ascii) : isHexDigit c = true -> isWhiteSpace c = false.
Proof. every_ascii c; vm_compute; congruence. Qed.

Lemma stripSign_hex (c : ascii) (l : list ascii) :
  isHexDigit c = true -> stripSign (c :: l) = (false, c :: l).
Proof. every_ascii c; vm_compute; congruence. Qed.

Lemma stripHexPrefix_hex (c d : ascii) (l : list ascii) :
  isHexDigit d = true -> stripHexPrefix (c :: d :: l) = c :: d :: l.
Proof.
  every_ascii c; try reflexivity.
  every_ascii d; vm_compute; congruence.
Qed.

Lemma hexValue_range (c : ascii) : 0 <= hexValue c <= 15.
Proof. every_ascii c; vm_compute; split; congruence. Qed.

(** A captured pair of digits read by [parseInt(_, 16)]. *)
Lemma parseInt16_pair (c d : ascii) :
  isHexDigit c = true -> isHexDigit d = true ->
  parseInt16 (Some [c; d]) = ofZ (16 * hexValue c + hexValue d).
Proof.
  intros Hc Hd. unfold parseInt16. cbn [trimStart].
  rewrite (isWhiteSpace_hex c Hc), (stripSign_hex c _ Hc), (stripHexPrefix_hex c d _ Hd).
  cbn [digits]. rewrite (digitValue_hex c Hc), (digitValue_hex d Hd).
  cbn [default from_option]. unfold id. f_equal. lia.
Qed.

Lemma matchAt_anchored (input : list ascii) (start : nat) :
  matchAt hexPattern input (S start) = None.
Proof. reflexivity. Qed.

Lemma search_anchored (input : list ascii) (fuel start : nat) :
  search hexPattern input fuel (S start) = None.
Proof.
  revert start. induction fuel as [|fuel IH]; intros start; cbn [search];
    rewrite matchAt_anchored; [reflexivity | apply IH].
Qed.

Lemma exec_anchored (hex : string) :
  exec hexPattern hex = matchAt hexPattern (list_ascii_of_string hex) 0.
Proof.
  unfold exec. destruct (length (list_ascii_of_string hex)); cbn [search];
    destruct (matchAt hexPattern _ 0); try reflexivity. apply search_anchored.
Qed.

Lemma hash_not_hexDigit (c : ascii) : Ascii.eqb c "#" = true -> isHexDigit c = false.
Proof. every_ascii c; vm_compute; congruence. Qed.

(** What the pattern captures, against the reading of the spec. *)
Lemma matchAt_sixHexDigits (hex : string) :
  matchAt hexPattern (list_ascii_of_string hex) 0 =
    match sixHexDigits hex with
    | Some [d1; d2; d3; d4; d5; d6] =>
        Some [Some (list_ascii_of_string hex); Some [d1; d2]; Some [d3; d4]; Some [d5; d6]]
    | _ => None
    end.
Proof.
  unfold sixHexDigits, matchAt.
  destruct (list_ascii_of_string hex) as [|c1 [|c2 [|c3 [|c4 [|c5 [|c6 [|c7 [|c8 l]]]]]]]].
  all: cbn -[classMatches canonicalize isHexDigit Ascii.eqb].
  all: rewrite ?classMatches_hexDigit, ?canonical_hash.
  all: try (destruct (Ascii.eqb c1 "#") eqn:Hhash;
            [rewrite ?(hash_not_hexDigit c1 Hhash)|]).
  all: cbn -[classMatches canonicalize isHexDigit Ascii.eqb].
  all: repeat match goal with
         | |- context [isHexDigit ?c] => destruct (isHexDigit c) eqn:?
         end.
  all: cbn -[classMatches canonicalize isHexDigit Ascii.eqb]; try reflexivity.
Qed.

Lemma sixHexDigits_Some (hex : string) (body : list ascii) :
  sixHexDigits hex = Some body -> length body = 6%nat /\ Forall (fun c => isHexDigit c = true) body.
Proof.
  unfold sixHexDigits.
  destruct (_ && _) eqn:H; [|discriminate]. intros [= <-].
  apply andb_true_iff in H as [Hlen Hall].
  split; [by apply Nat.eqb_eq|].
  apply Forall_forall. intros c Hc. rewrite forallb_forall in Hall.
  by apply Hall, list_elem_of_In.
Qed.

(** [hexToRgb] against the reading of the spec. *)
Lemma hexToRgb_sixHexDigits (hex : string) :
  match sixHexDigits hex with
  | Some [d1; d2; d3; d4; d5; d6] =>
      hexToRgb hex = {| r := ofZ (16 * hexValue d1 + hexValue d2);
                        g := ofZ (16 * hexValue d3 + hexValue d4);
                        b := ofZ (16 * hexValue d5 + hexValue d6) |}
  | _ => hexToRgb hex = {| r := ofZ 0; g := ofZ 0; b := ofZ 0 |}
  end.
Proof.
  unfold hexToRgb. rewrite exec_anchored, matchAt_sixHexDigits.
  destruct (sixHexDigits hex) as [body|] eqn:Hsix; [|reflexivity].
  apply sixHexDigits_Some in Hsix as [Hlen Hall].
  destruct body as [|d1 [|d2 [|d3 [|d4 [|d5 [|d6 [|d7 body]]]]]]]; try reflexivity.
  repeat match goal with
         | H : Forall _ (_ :: _) |- _ => apply Forall_cons in H as [? H]
         end.
  unfold group. cbn [lookup list_lookup default from_option id].
  by rewrite !parseInt16_pair.
Qed.

Lemma hexToRgb_bytes (hex : string) :
  isByte (r (hexToRgb hex)) /\ isByte (g (hexToRgb hex)) /\ isByte (b (hexToRgb hex)).
Proof.
  pose proof (hexToRgb_sixHexDigits hex) as H.
  destruct (sixHexDigits hex) as [[|d1 [|d2 [|d3 [|d4 [|d5 [|d6 [|d7 body]]]]]]]|];
    rewrite H; cbn [r g b]; unfold isByte;
    repeat match goal with
           | |- context [hexValue ?d] =>
               lazymatch goal with
               | _ : 0 <= hexValue d <= 15 |- _ => fail
               | _ => pose proof (hexValue_range d)
               end
           end;
    repeat split; eexists; (split; [|reflexivity]); lia.
Qed.

Lemma clamp_byte (v : num) : isByte v -> ofZ (toUint8Clamp v) = v.
Proof. intros (n & Hn & ->). by rewrite toUint8Clamp_ofZ. Qed.

End HexToRgb.

(** C3. [hexToRgb] returns, for a string that consists of exactly six
    hexadecimal digits (in either case) after an optional leading [#], the
    three channels whose values are those of its three pairs of digits, and
    [{r: 0, g: 0, b: 0}] for every other string; it is total, so no input
    raises. In particular ["#FF0000"] gives [{255, 0, 0}], ["00ff00"]
    gives [{0, 255, 0}] and ["bad"] gives [{0, 0, 0}]. *)
Theorem hexToRgb_six_digits_or_black :
  (forall hex : string,
      match sixHexDigits hex with
      | Some [d1; d2; d3; d4; d5; d6] =>
          hexToRgb hex = {| r := ofZ (16 * hexValue d1 + hexValue d2);
                            g := ofZ (16 * hexValue d3 + hexValue d4);
                            b := ofZ (16 * hexValue d5 + hexValue d6) |}
      | _ => hexToRgb hex = {| r := ofZ 0; g := ofZ 0; b := ofZ 0 |}
      end)
  /\ hexToRgb "#FF0000" = {| r := ofZ 255; g := ofZ 0; b := ofZ 0 |}
  /\ hexToRgb "00ff00" = {| r := ofZ 0; g := ofZ 255; b := ofZ 0 |}
  /\ hexToRgb "bad" = {| r := ofZ 0; g := ofZ 0; b := ofZ 0 |}.
Proof.
  split; [apply hexToRgb_sixHexDigits|].
  repeat split; vm_compute; reflexivity.
Qed.

(** ** The pixel loop *)

Section LoopRule.
Context {S : Type}.

(** The invariant rule for a counting loop. *)
Lemma forEach_seq_inv (P : nat -> S -> Prop) (body : nat -> S -> completion S)
      (a n : nat) (s : S) :
  P a s ->
  (forall k s, (a <= k < a + n)%nat -> P k s ->
               exists s', body k s = Normal s' /\ P (Datatypes.S k) s') ->
  exists s', forEach (seq a n) body s = Normal s' /\ P (a + n)%nat s'.
Proof.
  revert a s. induction n as [|n IH]; intros a s Ha Hstep.
  - exists s. rewrite Nat.add_0_r. by split.
  - cbn [seq forEach].
    destruct (Hstep a s ltac:(lia) Ha) as (s1 & -> & H1).
    destruct (IH (Datatypes.S a) s1 H1) as (s2 & H2 & HP).
    { intros k s' Hk. apply Hstep. lia. }
    exists s2. split; [exact H2|].
    by replace (a + Datatypes.S n)%nat with (Datatypes.S a + n)%nat by lia.
Qed.

Lemma forRange_inv (P : nat -> S -> Prop) (body : nat -> S -> completion S)
      (n : nat) (s : S) :
  P 0%nat s ->
  (forall k s, (k < n)%nat -> P k s ->
               exists s', body k s = Normal s' /\ P (Datatypes.S k) s') ->
  exists s', forRange n body s = Normal s' /\ P n s'.
Proof.
  intros H0 Hstep. apply (forEach_seq_inv P body 0 n s H0).
  intros k s' Hk. apply Hstep. lia.
Qed.

End LoopRule.

Section Counting.

Lemma count_le (f f' : nat -> bool) (n : nat) :
  (forall k, f k = true -> f' k = true) -> (count f n <= count f' n)%nat.
Proof.
  intros Hff'. induction n as [|n IH]; cbn [count]; [lia|].
  specialize (Hff' n). destruct (f n), (f' n); try lia.
  all: by specialize (Hff' eq_refl).
Qed.

Lemma countRows_le (f f' : nat -> nat -> bool) (w h : nat) :
  (forall x y, f x y = true -> f' x y = true) ->
  (countRows f w h <= countRows f' w h)%nat.
Proof.
  intros Hff'. induction h as [|h IH]; cbn [countRows]; [lia|].
  pose proof (count_le (fun x => f x h) (fun x => f' x h) w (fun x => Hff' x h)). lia.
Qed.

End Counting.

Section PixelLoop.
Variable settings : RetroSettings.
Variable procW : nat.
Variable data0 : list Z.

Lemma isLightRgb_total (red green blue : num) (x y : nat) :
  isLightRgb settings red green blue x y
  = Normal (lightRgb settings red green blue (scaled (entry x y))).
Proof. unfold isLightRgb. by rewrite getBayerValue_of_nat. Qed.

Lemma isLightAt_total (data : list Z) (x y : nat) :
  isLightAt settings procW data x y = Normal (lightAt settings procW data x y).
Proof. unfold isLightAt. by rewrite isLightRgb_total. Qed.

Lemma shade_total (data : list Z) (lights x y : nat) :
  shade settings procW y x (data, lights)
  = Normal (paint (colorAt settings procW data x y) (pixelIndex procW x y) data,
            if lightAt settings procW data x y then Datatypes.S lights else lights).
Proof.
  unfold shade. rewrite isLightAt_total. cbn. unfold colorAt, paint.
  by destruct (lightAt settings procW data x y).
Qed.

Lemma lightAt_unwritten (d : list Z) (n x y : nat) :
  doneUpTo settings procW data0 (y * procW + x) (d, n) ->
  lightAt settings procW d x y = lightAt settings procW data0 x y.
Proof.
  intros (_ & Hsame & _). cbn [fst] in Hsame. unfold lightAt, pixelIndex.
  by rewrite !Hsame by lia.
Qed.

Lemma same_pixel (x y x' y' : nat) :
  (x < procW)%nat -> (x' < procW)%nat ->
  (y' * procW + x' = y * procW + x)%nat -> x' = x /\ y' = y.
Proof.
  intros Hx Hx' Heq.
  assert (y' = y) as ->; [|lia].
  destruct (Nat.lt_trichotomy y' y) as [H|[H|H]]; [|done|]; nia.
Qed.

Lemma paint_length (c : rgb) (i : nat) (d : list Z) : length (paint c i d) = length d.
Proof. unfold paint. by rewrite !length_insert. Qed.

Lemma paint_other (c : rgb) (i j : nat) (d : list Z) :
  (j < i \/ i + 3 < j)%nat -> paint c i d !! j = d !! j.
Proof. intros H. unfold paint. rewrite !list_lookup_insert_ne by lia. done. Qed.

Lemma paint_pixel (c : rgb) (i : nat) (d : list Z) :
  (i + 3 < length d)%nat ->
  [paint c i d !! i; paint c i d !! (i + 1)%nat;
   paint c i d !! (i + 2)%nat; paint c i d !! (i + 3)%nat] = opaque c.
Proof.
  intros H. unfold paint, opaque.
  repeat f_equal;
    repeat first [ rewrite list_lookup_insert_eq by (rewrite ?length_insert; lia); reflexivity
                 | rewrite list_lookup_insert_ne by lia ].
Qed.

Lemma shade_done (d : list Z) (n x y : nat) :
  (x < procW)%nat ->
  doneUpTo settings procW data0 (y * procW + x) (d, n) ->
  exists d',
    shade settings procW y x (d, n)
    = Normal (d', if lightAt settings procW data0 x y then Datatypes.S n else n)
    /\ doneUpTo settings procW data0 (Datatypes.S (y * procW + x))
            (d', if lightAt settings procW data0 x y then Datatypes.S n else n).
Proof.
  intros Hx Hdone. rewrite shade_total.
  pose proof (lightAt_unwritten d n x y Hdone) as Hlight.
  assert (Hcolor : colorAt settings procW d x y = colorAt settings procW data0 x y)
    by (unfold colorAt; by rewrite Hlight).
  rewrite Hlight, Hcolor. eexists. split; [reflexivity|].
  destruct Hdone as (Hlen & Hsame & Hpix). cbn [fst] in *.
  assert (Hi : pixelIndex procW x y = (4 * (y * procW + x))%nat)
    by (unfold pixelIndex; lia).
  split; [|split]; cbn [fst].
  - by rewrite paint_length.
  - intros j Hj. rewrite paint_other by lia. apply Hsame. lia.
  - intros x' y' Hx' Hk Hin.
    destruct (decide (y' * procW + x' = y * procW + x)%nat) as [Heq|Hne].
    + destruct (same_pixel x y x' y' Hx Hx' Heq) as [-> ->].
      unfold pixelAt. apply paint_pixel. rewrite Hlen. lia.
    + rewrite <- (Hpix x' y' Hx' ltac:(lia) Hin).
      unfold pixelAt, pixelIndex. by rewrite !paint_other by lia.
Qed.

(** The whole loop: it ends normally, every pixel of the surface that
    lies in the buffer has its final colour and the counter holds the
    number of pixels that the test, on the bytes at the start, found
    light. *)
Lemma ditherLoop_done (procH : nat) :
  exists out,
    ditherLoop settings procW procH data0
    = Normal (out, countRows (lightAt settings procW data0) procW procH)
    /\ doneUpTo settings procW data0 (procH * procW) (out, 0%nat).
Proof.
  unfold ditherLoop.
  destruct (forRange_inv
              (fun y st => doneUpTo settings procW data0 (y * procW) st /\
                           snd st = countRows (lightAt settings procW data0) procW y)
              (fun y => forRange procW (shade settings procW y))
              procH (data0, 0%nat)) as ([out n] & Hrun & Hdone & Hn).
  - repeat split; cbn; intros; lia.
  - intros y [d n] Hy [Hdone Hn]. cbn [snd] in Hn.
    destruct (forRange_inv
                (fun x st => doneUpTo settings procW data0 (y * procW + x) st /\
                             snd st = (n + count (fun x' => lightAt settings procW data0 x' y) x)%nat)
                (shade settings procW y) procW (d, n)) as (st' & Hrow & Hdone' & Hn').
    + split; [by rewrite Nat.add_0_r | cbn; lia].
    + intros x [d1 n1] Hx [Hd1 Hn1]. cbn [snd] in Hn1.
      destruct (shade_done d1 n1 x y Hx Hd1) as (d2 & Hshade & Hd2).
      eexists. split; [exact Hshade|]. split;
        [by replace (y * procW + Datatypes.S x)%nat with (Datatypes.S (y * procW + x)) by lia|].
      cbn [snd count]. destruct (lightAt settings procW data0 x y); lia.
    + exists st'. split; [exact Hrow|]. split.
      * by replace (Datatypes.S y * procW)%nat with (y * procW + procW)%nat by lia.
      * rewrite Hn'. cbn [countRows]. lia.
  - cbn [snd] in Hn. subst n. exists out. split; [exact Hrun|]. exact Hdone.
Qed.

End PixelLoop.

Section Palette.
Variable settings : RetroSettings.

Lemma lightOf_bytes :
  isByte (r (lightOf settings)) /\ isByte (g (lightOf settings)) /\ isByte (b (lightOf settings)).
Proof. unfold lightOf. destruct (invert settings); apply hexToRgb_bytes. Qed.

Lemma darkOf_bytes :
  isByte (r (darkOf settings)) /\ isByte (g (darkOf settings)) /\ isByte (b (darkOf settings)).
Proof. unfold darkOf. destruct (invert settings); apply hexToRgb_bytes. Qed.

End Palette.

Section Surface.
Variable settings : RetroSettings.
Variables procW procH : nat.
Variable data : list Z.
Hypothesis data_length : length data = (4 * procW * procH)%nat.

Lemma pixel_in_surface (x y : nat) :
  (x < procW)%nat -> (y < procH)%nat ->
  (y * procW + x < procH * procW)%nat /\ (4 * (y * procW + x) + 3 < length data)%nat.
Proof. intros Hx Hy. rewrite data_length. nia. Qed.

Lemma pixelAt_surface (x y : nat) :
  (x < procW)%nat -> (y < procH)%nat ->
  exists red green blue alpha,
    pixelAt procW data x y = [Some red; Some green; Some blue; Some alpha].
Proof.
  intros Hx Hy. destruct (pixel_in_surface x y Hx Hy) as [_ Hin].
  unfold pixelAt, pixelIndex.
  destruct (lookup_lt_is_Some_2 data ((y * procW + x) * 4)) as [red ->]; [lia|].
  destruct (lookup_lt_is_Some_2 data ((y * procW + x) * 4 + 1)) as [green ->]; [lia|].
  destruct (lookup_lt_is_Some_2 data ((y * procW + x) * 4 + 2)) as [blue ->]; [lia|].
  destruct (lookup_lt_is_Some_2 data ((y * procW + x) * 4 + 3)) as [alpha ->]; [lia|].
  by exists red, green, blue, alpha.
Qed.

(** The loop on a buffer that covers the surface. *)
Lemma ditherPixels_surface :
  exists out,
    ditherPixels settings procW procH data = Normal out /\
    forall x y, (x < procW)%nat -> (y < procH)%nat ->
                pixelAt procW out x y = opaque (colorAt settings procW data x y).
Proof.
  destruct (ditherLoop_done settings procW data procH) as (out & Hrun & _ & _ & Hpix).
  exists out. split.
  - unfold ditherPixels. by rewrite Hrun.
  - intros x y Hx Hy. destruct (pixel_in_surface x y Hx Hy) as [Hk Hin].
    by apply Hpix.
Qed.

End Surface.

Lemma lightCount_total (settings : RetroSettings) (procW procH : nat) (data : list Z) :
  lightCount settings procW procH data
  = Normal (countRows (lightAt settings procW data) procW procH).
Proof.
  destruct (ditherLoop_done settings procW data procH) as (out & Hrun & _).
  unfold lightCount. by rewrite Hrun.
Qed.

(** ** The scanline overlay *)

Section Overlay.

(** The rows the loop fills from [y] on: those below [displayH] at an even
    distance from [y], provided the fuel covers them. *)
Lemma scanRows_spec (fuel : nat) (y displayW displayH : Z) (c : call) :
  displayH - y <= 2 * Z.of_nat fuel ->
  c ∈ scanRows fuel y displayW displayH <->
  exists k : Z, 0 <= k /\ y + 2 * k < displayH /\ c = FillRect 0 (y + 2 * k) displayW 1.
Proof.
  revert y. induction fuel as [|fuel IH]; intros y Hfuel; cbn [scanRows].
  - split; [by intros ?%elem_of_nil | intros (k & ? & ? & _); lia].
  - destruct (Z.ltb_spec y displayH) as [Hlt|Hge].
    + rewrite elem_of_cons, (IH (y + 2)) by lia. split.
      * intros [->|(k & Hk & Hin & ->)].
        -- exists 0. repeat split; [lia | lia | f_equal; lia].
        -- exists (k + 1). repeat split; [lia | lia | f_equal; lia].
      * intros (k & Hk & Hin & ->).
        destruct (decide (k = 0)) as [->|Hne].
        -- left. f_equal. lia.
        -- right. exists (k - 1). repeat split; [lia | lia | f_equal; lia].
    + split; [by intros ?%elem_of_nil | intros (k & ? & ? & _); lia].
Qed.


End Overlay.

(** What a pass draws on the display canvas is what the loop left in the
    buffer that [getImageData] handed out. *)
Lemma processFrame_draws_dithered (file : option UploadedFile) (settings : RetroSettings)
      (dom : Dom) (out : list Z) (procW procH displayW displayH : Z) :
  DrawOffscreen out procW procH displayW displayH ∈ calls (processFrame file settings dom) ->
  exists data,
    imageData dom procW procH = Normal data /\
    ditherPixels settings (Z.to_nat procW) (Z.to_nat procH) data = Normal out /\
    procW = procSize settings displayW /\ procH = procSize settings displayH.
Proof.
  unfold processFrame, pipeline, returned, raised, overlay.
  repeat match goal with
         | |- context [match ?t with _ => _ end] =>
             lazymatch t with
             | scanlines _ _ => fail
             | _ => destruct t eqn:?
             end
         end; cbn [calls]; intros Hin.
  all: repeat first [ apply elem_of_app in Hin as [Hin|Hin]
                    | apply elem_of_cons in Hin as [Hin|Hin]
                    | apply elem_of_nil in Hin; destruct Hin ];
       try discriminate Hin.
  all: try (injection Hin as -> -> -> -> ->; eexists; repeat split; eassumption).
  all: apply scanRows_spec in Hin as (k & _ & _ & Hin); [discriminate Hin | lia].
Qed.

(** C1. In every pass, for every pixel [(x, y)] of the processing surface
    with source channels [red], [green], [blue]: the pixel the loop leaves
    is the effective light colour if
    [((0.299*red + 0.587*green + 0.114*blue - 128) * contrast + 128)
      + (getBayerValue(x, y) - 128) * ditherAmount > threshold]
    and the effective dark colour otherwise, and its alpha byte is 255
    whatever the source alpha was. The loop ends normally, and what a pass
    draws on the display canvas is the buffer the loop left. *)
Theorem processFrame_pixel_rule :
  (forall (settings : RetroSettings) (procW procH : nat) (data : list Z),
      length data = (4 * procW * procH)%nat ->
      exists out,
        ditherPixels settings procW procH data = Normal out /\
        forall x y, (x < procW)%nat -> (y < procH)%nat ->
          exists red green blue alpha ditherVal,
            pixelAt procW data x y = [Some red; Some green; Some blue; Some alpha] /\
            getBayerValue (Z.of_nat x) (Z.of_nat y) = Normal ditherVal /\
            let luma :=
              add (add (mul (decimal 299 3) (ofZ red)) (mul (decimal 587 3) (ofZ green)))
                  (mul (decimal 114 3) (ofZ blue)) in
            let isLight :=
              gt (add (add (mul (sub luma (ofZ 128)) (contrast settings)) (ofZ 128))
                      (mul (sub ditherVal (ofZ 128)) (ditherAmount settings)))
                 (threshold settings) in
            let color := if isLight then lightOf settings else darkOf settings in
            exists R G B,
              pixelAt procW out x y = [Some R; Some G; Some B; Some 255] /\
              ofZ R = r color /\ ofZ G = g color /\ ofZ B = b color)
  /\
  (forall (file : option UploadedFile) (settings : RetroSettings) (dom : Dom)
          (out : list Z) (procW procH displayW displayH : Z),
      DrawOffscreen out procW procH displayW displayH ∈ calls (processFrame file settings dom) ->
      exists data,
        imageData dom procW procH = Normal data /\
        ditherPixels settings (Z.to_nat procW) (Z.to_nat procH) data = Normal out).
Proof.
  split.
  2:{ intros file settings dom out procW procH displayW displayH Hin.
      destruct (processFrame_draws_dithered _ _ _ _ _ _ _ _ Hin) as (data & ? & ? & _).
      by exists data. }
  intros settings procW procH data Hlen.
  destruct (ditherPixels_surface settings procW procH data Hlen) as (out & Hrun & Hpix).
  exists out. split; [exact Hrun|]. intros x y Hx Hy.
  destruct (pixelAt_surface procW procH data Hlen x y Hx Hy)
    as (red & green & blue & alpha & Hsrc).
  exists red, green, blue, alpha, (scaled (entry x y)).
  split; [exact Hsrc|]. split; [apply getBayerValue_of_nat|].
  cbv zeta. specialize (Hpix x y Hx Hy).
  unfold pixelAt in Hsrc. injection Hsrc as Hr Hg Hb _.
  unfold colorAt, lightAt, lightRgb in Hpix. rewrite Hr, Hg, Hb in Hpix.
  cbn [toNumber] in Hpix.
  match type of Hpix with
  | _ = opaque ?c => pose proof (clamp_byte (r c)) as Hcr;
                     pose proof (clamp_byte (g c)) as Hcg;
                     pose proof (clamp_byte (b c)) as Hcb
  end.
  eexists _, _, _. split; [exact Hpix|].
  destruct (lightOf_bytes settings) as (? & ? & ?).
  destruct (darkOf_bytes settings) as (? & ? & ?).
  repeat split; [apply Hcr | apply Hcg | apply Hcb]; by destruct (gt _ _).
Qed.

Lemma processFrame_pixel_rule_witness :
  let settings :=
    {| pixelSize := 6; threshold := ofZ 110; ditherAmount := decimal 25 2;
       contrast := decimal 11 1; colorDark := "#1a1a14"; colorLight := "#e6e0d4";
       invert := false; gridLine := false |} in
  let data := [0; 0; 0; 7; 255; 255; 255; 9; 128; 128; 128; 0; 100; 110; 120; 255] in
  length data = (4 * 2 * 2)%nat /\
  exists out, ditherPixels settings 2 2 data = Normal out.
Proof.
  cbv zeta. split; [reflexivity|].
  destruct (proj1 processFrame_pixel_rule
              {| pixelSize := 6; threshold := ofZ 110; ditherAmount := decimal 25 2;
                 contrast := decimal 11 1; colorDark := "#1a1a14"; colorLight := "#e6e0d4";
                 invert := false; gridLine := false |}
              2%nat 2%nat
              [0; 0; 0; 7; 255; 255; 255; 9; 128; 128; 128; 0; 100; 110; 120; 255]
              eq_refl) as (out & Hrun & _).
  exists out. exact Hrun.
Defined.

(** C5. With [invert] set, every pixel gets the colour of the other
    palette entry than without it: where the run without [invert] stores
    [colorLight] the run with [invert] stores [colorDark] and the other way
    round; the light/dark classification of every pixel, and so the number
    of light pixels, is the same in the two runs. *)
Theorem invert_swaps_palette (settings : RetroSettings) (procW procH : nat) (data : list Z) :
  length data = (4 * procW * procH)%nat ->
  exists plain inverted,
    ditherPixels (withInvert false settings) procW procH data = Normal plain /\
    ditherPixels (withInvert true settings) procW procH data = Normal inverted /\
    lightCount (withInvert true settings) procW procH data
    = lightCount (withInvert false settings) procW procH data /\
    forall x y, (x < procW)%nat -> (y < procH)%nat ->
      exists isLight : bool,
        isLightAt (withInvert false settings) procW data x y = Normal isLight /\
        isLightAt (withInvert true settings) procW data x y = Normal isLight /\
        pixelAt procW plain x y
        = opaque (if isLight then hexToRgb (colorLight settings)
                  else hexToRgb (colorDark settings)) /\
        pixelAt procW inverted x y
        = opaque (if isLight then hexToRgb (colorDark settings)
                  else hexToRgb (colorLight settings)).
Proof.
  intros Hlen.
  destruct (ditherPixels_surface (withInvert false settings) procW procH data Hlen)
    as (plain & Hplain & Hpix).
  destruct (ditherPixels_surface (withInvert true settings) procW procH data Hlen)
    as (inverted & Hinverted & Hpix').
  exists plain, inverted. repeat split; try assumption.
  - by rewrite !lightCount_total.
  - intros x y Hx Hy.
    exists (lightAt (withInvert false settings) procW data x y).
    rewrite !isLightAt_total, (Hpix x y Hx Hy), (Hpix' x y Hx Hy).
    repeat split.
Qed.

Lemma invert_swaps_palette_witness :
  let settings :=
    {| pixelSize := 6; threshold := ofZ 110; ditherAmount := decimal 25 2;
       contrast := decimal 11 1; colorDark := "#1a1a14"; colorLight := "#e6e0d4";
       invert := false; gridLine := false |} in
  let data := [0; 0; 0; 7; 255; 255; 255; 9; 128; 128; 128; 0; 100; 110; 120; 255] in
  length data = (4 * 2 * 2)%nat /\
  exists plain inverted,
    ditherPixels (withInvert false settings) 2 2 data = Normal plain /\
    ditherPixels (withInvert true settings) 2 2 data = Normal inverted.
Proof.
  cbv zeta. split; [reflexivity|].
  destruct (invert_swaps_palette
              {| pixelSize := 6; threshold := ofZ 110; ditherAmount := decimal 25 2;
                 contrast := decimal 11 1; colorDark := "#1a1a14"; colorLight := "#e6e0d4";
                 invert := false; gridLine := false |}
              2%nat 2%nat
              [0; 0; 0; 7; 255; 255; 255; 9; 128; 128; 128; 0; 100; 110; 120; 255]
              eq_refl) as (plain & inverted & Hp & Hi & _).
  exists plain, inverted. by split.
Defined.

(** C6. For two settings that differ only in their thresholds
    [t1 <= t2], the pass counts no more light pixels under [t2] than under
    [t1]. *)
Theorem threshold_antitone (settings : RetroSettings) (t1 t2 : num)
        (procW procH : nat) (data : list Z) :
  le t1 t2 = true ->
  exists n1 n2,
    lightCount (withThreshold t1 settings) procW procH data = Normal n1 /\
    lightCount (withThreshold t2 settings) procW procH data = Normal n2 /\
    (n2 <= n1)%nat.
Proof.
  intros Hle. rewrite !lightCount_total. eexists _, _. split; [reflexivity|].
  split; [reflexivity|]. apply countRows_le. intros x y.
  unfold lightAt, lightRgb. cbn [threshold contrast ditherAmount withThreshold].
  intros Hgt. exact (gt_le_trans _ _ _ Hgt Hle).
Qed.

Lemma threshold_antitone_witness :
  let settings :=
    {| pixelSize := 6; threshold := ofZ 110; ditherAmount := decimal 25 2;
       contrast := decimal 11 1; colorDark := "#1a1a14"; colorLight := "#e6e0d4";
       invert := false; gridLine := false |} in
  let data := [0; 0; 0; 7; 255; 255; 255; 9; 128; 128; 128; 0; 100; 110; 120; 255] in
  le (ofZ 100) (ofZ 140) = true /\
  exists n1 n2,
    lightCount (withThreshold (ofZ 100) settings) 2 2 data = Normal n1 /\
    lightCount (withThreshold (ofZ 140) settings) 2 2 data = Normal n2 /\
    (n2 <= n1)%nat.
Proof.
  cbv zeta. split; [reflexivity|].
  apply (threshold_antitone
           {| pixelSize := 6; threshold := ofZ 110; ditherAmount := decimal 25 2;
              contrast := decimal 11 1; colorDark := "#1a1a14"; colorLight := "#e6e0d4";
              invert := false; gridLine := false |}
           (ofZ 100) (ofZ 140) 2%nat 2%nat
           [0; 0; 0; 7; 255; 255; 255; 9; 128; 128; 128; 0; 100; 110; 120; 255]).
  reflexivity.
Defined.

Lemma below_spec (n k : Z) : 0 <= k < n -> In k (below n).
Proof.
  intros H. unfold below. apply in_map_iff. exists (Z.to_nat k). split; [lia|].
  apply in_seq. lia.
Qed.

Lemma quotientsAgree_spec (displays factors display factor : Z) :
  quotientsAgree displays factors = true ->
  0 <= display < displays -> 1 <= factor <= factors ->
  floorOfQuotient display factor = Some (display / factor).
Proof.
  intros Hall Hd Hf. unfold quotientsAgree in Hall.
  pose proof (proj1 (forallb_forall _ _) Hall (factor - 1)
                    (below_spec factors (factor - 1) ltac:(lia))) as Hrow.
  pose proof (proj1 (forallb_forall _ _) Hrow display
                    (below_spec displays display ltac:(lia))) as Hcell.
  cbv beta in Hcell. replace (factor - 1 + 1) with factor in Hcell by lia.
  destruct (floorOfQuotient display factor) as [q|]; [|discriminate].
  apply Z.eqb_eq in Hcell. by subst.
Qed.

(** For display sizes up to 1024 pixels and the pixel sizes of the slider
    (1 to 24), the division in doubles followed by [Math.floor] is the
    integer quotient that [procSize] takes. *)
Lemma floorOfQuotient_exact (display factor : Z) :
  0 <= display <= 1024 -> 1 <= factor <= 24 ->
  floorOfQuotient display factor = Some (display / factor).
Proof.
  intros Hd Hf. apply (quotientsAgree_spec 1025 24); [|lia|lia].
  vm_compute. reflexivity.
Qed.

(** C8. The processing-surface dimensions of a pass are
    [procW = max(1, floor(displayW / max(1, pixelSize)))] and
    [procH = max(1, floor(displayH / max(1, pixelSize)))]; when
    [pixelSize >= 1] this is [max(1, floor(displayW / pixelSize))], the
    formula of the data model; and both are at least 1. These are the
    dimensions of the buffer that a pass draws. *)
Theorem procSize_formula (settings : RetroSettings) (displayW displayH : Z) :
  let procW := procSize settings displayW in
  let procH := procSize settings displayH in
  procW = Z.max 1 (displayW / Z.max 1 (pixelSize settings)) /\
  procH = Z.max 1 (displayH / Z.max 1 (pixelSize settings)) /\
  (1 <= pixelSize settings ->
   procW = Z.max 1 (displayW / pixelSize settings) /\
   procH = Z.max 1 (displayH / pixelSize settings)) /\
  1 <= procW /\ 1 <= procH /\
  (forall file dom out w h,
      DrawOffscreen out w h displayW displayH ∈ calls (processFrame file settings dom) ->
      w = procW /\ h = procH).
Proof.
  cbv zeta. split; [reflexivity|]. split; [reflexivity|]. split; [|split; [|split]].
  - intros Hsize. unfold procSize. by rewrite (Z.max_r 1 (pixelSize settings)) by lia.
  - unfold procSize. lia.
  - unfold procSize. lia.
  - intros file dom out w h Hin.
    by destruct (processFrame_draws_dithered _ _ _ _ _ _ _ _ Hin) as (? & _ & _ & ? & ?).
Qed.

Lemma procSize_formula_witness :
  let settings :=
    {| pixelSize := 6; threshold := ofZ 110; ditherAmount := decimal 25 2;
       contrast := decimal 11 1; colorDark := "#1a1a14"; colorLight := "#e6e0d4";
       invert := false; gridLine := false |} in
  1 <= pixelSize settings /\
  procSize settings 1000 = Z.max 1 (1000 / 6) /\
  procSize settings 562 = Z.max 1 (562 / 6).
Proof.
  cbv zeta. split; [cbn; lia|].
  apply (proj1 (proj2 (proj2
           (procSize_formula
              {| pixelSize := 6; threshold := ofZ 110; ditherAmount := decimal 25 2;
                 contrast := decimal 11 1; colorDark := "#1a1a14"; colorLight := "#e6e0d4";
                 invert := false; gridLine := false |} 1000 562)))).
  cbn. lia.
Defined.



(** ** Early returns of a pass *)

Section EarlyReturns.

(** A pass re-arms itself only for a video. *)
Lemma requested_video (file : option UploadedFile) (settings : RetroSettings) (dom : Dom) :
  requested (processFrame file settings dom) = true -> hasType file video = true.
Proof.
  unfold processFrame, pipeline, returned, raised.
  repeat match goal with
         | |- context [match ?t with _ => _ end] =>
             lazymatch t with
             | hasType _ _ => fail
             | _ => destruct t eqn:?
             end
         end; cbn [requested]; try discriminate; try done.
  all: destruct (hasType file video); try done.
Qed.

(** A source without a width or without a height: the pass returns
    before it touches a canvas, and raises nothing. *)
Lemma zero_dimension_quiet (file : option UploadedFile) (settings : RetroSettings)
      (dom : Dom) (w h : Z) :
  sourceSize file dom = Some (w, h) -> w = 0 \/ h = 0 ->
  calls (processFrame file settings dom) = [] /\
  outcome (processFrame file settings dom) = Normal tt.
Proof.
  unfold sourceSize, processFrame, pipeline.
  destruct (canvasRef dom) as [canvas|]; [|done].
  destruct (containerRef dom) as [[containerW containerH]|]; [|done].
  destruct (context2d canvas); [|done]. cbn [negb].
  destruct (if hasType file video then videoRef dom else None) as [[vw vh]|].
  - intros [= -> ->] [->| ->]; [done|].
    destruct (w =? 0); [done|]. by rewrite orb_true_r.
  - destruct (if hasType file image then imageRef dom else None) as [[nw nh]|]; [|done].
    intros [= -> ->] [->| ->]; [done|].
    destruct (w =? 0); [done|]. by rewrite orb_true_r.
Qed.

(** A video that reports no width yet is polled again at the next
    refresh, provided the display canvas is there. *)
Lemma zero_width_video_requested (file : option UploadedFile) (settings : RetroSettings)
      (dom : Dom) (canvas : Canvas) (container : Z * Z) (h : Z) :
  canvasRef dom = Some canvas -> containerRef dom = Some container ->
  context2d canvas = true ->
  hasType file video = true -> videoRef dom = Some (0, h) ->
  requested (processFrame file settings dom) = true.
Proof.
  intros Hcanvas Hcontainer Hctx Hvideo Href. unfold processFrame.
  rewrite Hcanvas, Hcontainer, Hctx, Hvideo, Href. by destruct container.
Qed.

(** Without a 2D context on the offscreen canvas, the only request a
    pass makes is the poll of a video that has no width yet. *)
Lemma no_offscreen_context_no_request (file : option UploadedFile)
      (settings : RetroSettings) (dom : Dom) :
  offscreenContext2d dom = false ->
  requested (processFrame file settings dom) = true ->
  exists h, videoRef dom = Some (0, h).
Proof.
  intros Hoff. unfold processFrame, pipeline. rewrite Hoff.
  destruct (canvasRef dom) as [canvas|]; [|done].
  destruct (containerRef dom) as [[containerW containerH]|]; [|done].
  destruct (context2d canvas); [|done]. cbn [negb].
  destruct (hasType file video).
  - destruct (videoRef dom) as [[vw vh]|].
    + destruct (Z.eqb_spec vw 0) as [->|Hw]; [by eauto|].
      cbn [orb]. destruct (vh =? 0); [done|].
      by destruct (displaySize _ _ _ _) as [[?|] [?|]].
    + destruct (if hasType file image then imageRef dom else None) as [[nw nh]|]; [|done].
      destruct (nw =? 0); [done|]. cbn [orb]. destruct (nh =? 0); [done|].
      by destruct (displaySize _ _ _ _) as [[?|] [?|]].
  - destruct (if hasType file image then imageRef dom else None) as [[nw nh]|]; [|done].
    destruct (nw =? 0); [done|]. cbn [orb]. destruct (nh =? 0); [done|].
    by destruct (displaySize _ _ _ _) as [[?|] [?|]].
Qed.

End EarlyReturns.

(** ** The frame loop *)

Section FrameLoop.

Lemma tidy_initial : tidy initial.
Proof. repeat split; [done | by left | constructor]. Qed.

Lemma runPass_tidy (dom : Dom) (c : Closure) (w : World) :
  tidy w -> callbacks w = [] -> live w = Some (gen c) ->
  tidy (runPass dom c w) /\
  live (runPass dom c w) = live w /\
  commits (runPass dom c w) = commits w /\
  (forall cb, cb ∈ callbacks (runPass dom c w) -> snd cb = c) /\
  (hasType (cFile c) video = false -> callbacks (runPass dom c w) = []).
Proof.
  intros (Hh & _ & Hran) Hnone Hlive. unfold runPass.
  assert (Hran' : Forall (fun p => liveGen p = Some (ranGen p))
                         (ran w ++ [{| ranGen := gen c; liveGen := live w;
                                       ranPass := processFrame (cFile c) (cSettings c) dom |}])).
  { apply Forall_app. split; [exact Hran|]. by repeat constructor. }
  destruct (requested _) eqn:Hreq.
  - unfold requestAnimationFrame, tidy. cbn. rewrite Hnone. cbn.
    repeat split; try done; try lia.
    + right. eexists _, _. repeat split; try done; lia.
    + by intros cb ->%list_elem_of_singleton.
    + intros Hnot. apply requested_video in Hreq. congruence.
  - unfold tidy. cbn. rewrite Hnone. repeat split; try done.
    + by left.
    + by intros cb ?%elem_of_nil.
Qed.

Lemma cleanup_tidy (w : World) :
  tidy w -> tidy (cleanup w) /\ callbacks (cleanup w) = [] /\
            live (cleanup w) = None /\ commits (cleanup w) = commits w /\
            ran (cleanup w) = ran w.
Proof.
  intros (Hh & Hcb & Hran). unfold cleanup.
  destruct Hcb as [Hnone|(h & c & Hone & Href & Hpos & Hlive)].
  - assert (callbacks
              match requestRef w with
              | Some handle => if handle =? 0 then w else cancelAnimationFrame handle w
              | None => w
              end = []) as Hnone'.
    { destruct (requestRef w) as [h|]; [|done].
      destruct (h =? 0); [done|]. cbn. by rewrite Hnone. }
    unfold tidy. cbn. rewrite Hnone'.
    destruct (requestRef w) as [h|]; [destruct (h =? 0)|]; cbn; repeat split; auto.
  - rewrite Href. destruct (Z.eqb_spec h 0) as [->|_]; [lia|].
    unfold tidy. cbn. rewrite Hone. cbn.
    rewrite decide_False by (intros Hne; by apply Hne).
    repeat split; auto.
Qed.

Lemma effect_tidy (dom : Dom) (c : Closure) (w : World) :
  tidy w -> callbacks w = [] ->
  tidy (effect dom c w) /\
  (forall cb, cb ∈ callbacks (effect dom c w) -> snd cb = c) /\
  (hasType (cFile c) video = false -> callbacks (effect dom c w) = []).
Proof.
  intros Htidy Hnone. unfold effect.
  set (w' := {| requestRef := requestRef w; callbacks := callbacks w;
                lastHandle := lastHandle w; live := Some (gen c);
                commits := Datatypes.S (commits w); ran := ran w |}).
  assert (Htidy' : tidy w').
  { destruct Htidy as (? & _ & ?). repeat split; [done | by left | done]. }
  destruct (hasType (cFile c) video) eqn:Hvideo.
  - destruct Htidy' as (Hh & _ & Hran). cbn in Hh, Hran.
    unfold requestAnimationFrame, tidy. cbn. rewrite Hnone. cbn.
    split; [split; [lia|split; [|done]]|split; [|done]].
    + right. eexists _, _. repeat split; try done; lia.
    + by intros cb ->%list_elem_of_singleton.
  - destruct (runPass_tidy dom c w' Htidy' Hnone eq_refl) as (H1 & _ & _ & H2 & H3).
    split; [exact H1|]. split; [exact H2|]. intros _. exact (H3 Hvideo).
Qed.

Lemma react_tidy (w : World) (e : event) : tidy w -> tidy (react w e).
Proof.
  intros Htidy. destruct e as [file settings dom| |dom]; cbn [react].
  - apply effect_tidy.
    + destruct (live w) eqn:Hlive; [by apply cleanup_tidy|].
      destruct Htidy as (? & [Hnone|(h & c & _ & _ & _ & ?)] & ?); [|congruence].
      repeat split; [done | by left | done].
    + destruct (live w) eqn:Hlive; [by apply cleanup_tidy|].
      destruct Htidy as (? & [Hnone|(h & c & _ & _ & _ & ?)] & ?); [done|congruence].
  - destruct (live w); [by apply cleanup_tidy | done].
  - destruct Htidy as (Hh & [Hnone|(h & c & Hone & Href & Hpos & Hlive)] & Hran).
    + rewrite Hnone. cbn. repeat split; [done | by left | done].
    + rewrite Hone. cbn [fold_left snd]. apply runPass_tidy; [|done|done].
      repeat split; [done | by left | done].
Qed.

Lemma run_tidy (es : list event) (w : World) : tidy w -> tidy (run es w).
Proof.
  revert w. induction es as [|e es IH]; intros w Htidy; [done|].
  cbn. apply IH, react_tidy, Htidy.
Qed.

(** With nothing pending, refreshes run nothing. *)
Lemma idle_frames (doms : list Dom) (w : World) :
  callbacks w = [] -> ran (run (map AnimationFrame doms) w) = ran w.
Proof.
  revert w. induction doms as [|dom doms IH]; intros w Hnone; [done|].
  cbn. rewrite IH; cbn; by rewrite Hnone.
Qed.

End FrameLoop.

(** C9. After the source is cleared or changed, or the view is unmounted,
    no continuation of the old effect is pending: after an unmount nothing
    is pending, so no pass runs at any later refresh; after a commit that
    clears the source nothing is pending either; after a commit with a new
    [file] or new [settings] only the closure of that commit can be
    pending; and every pass that ever ran was a pass of the effect that was
    set up when it ran. *)
Theorem teardown_cancels_continuation (es : list event) :
  let w := run es initial in
  callbacks (react w Unmount) = [] /\
  (forall doms, ran (run (Unmount :: map AnimationFrame doms) w) = ran w) /\
  (forall settings dom, callbacks (react w (Commit None settings dom)) = []) /\
  (forall file settings dom cb,
      cb ∈ callbacks (react w (Commit file settings dom)) ->
      snd cb = {| gen := commits w; cFile := file; cSettings := settings |}) /\
  Forall (fun p => liveGen p = Some (ranGen p)) (ran w).
Proof.
  cbv zeta. pose proof (run_tidy es initial tidy_initial) as Htidy.
  set (w := run es initial) in *.
  assert (Hunmount : callbacks (react w Unmount) = [] /\ ran (react w Unmount) = ran w).
  { cbn [react]. destruct (live w) eqn:Hlive.
    - destruct (cleanup_tidy w Htidy) as (_ & ? & _ & _ & ?). by split.
    - destruct Htidy as (_ & [Hnone|(h & c & _ & _ & _ & ?)] & _); [done|congruence]. }
  assert (Hclean : tidy (match live w with
                         | Some _ => cleanup w
                         | None => {| requestRef := None; callbacks := callbacks w;
                                      lastHandle := lastHandle w; live := None;
                                      commits := commits w; ran := ran w |}
                         end) /\
                   callbacks (match live w with
                              | Some _ => cleanup w
                              | None => {| requestRef := None; callbacks := callbacks w;
                                           lastHandle := lastHandle w; live := None;
                                           commits := commits w; ran := ran w |}
                              end) = []).
  { destruct (live w) eqn:Hlive.
    - destruct (cleanup_tidy w Htidy) as (? & ? & _). by split.
    - destruct Htidy as (? & [Hnone|(h & c & _ & _ & _ & ?)] & ?); [|congruence].
      split; [|done]. repeat split; [done | by left | done]. }
  split; [apply Hunmount|]. split; [|split; [|split]].
  - intros doms. cbn [run fold_left].
    change (fold_left react (map AnimationFrame doms) (react w Unmount))
      with (run (map AnimationFrame doms) (react w Unmount)).
    rewrite idle_frames; apply Hunmount.
  - intros settings dom. cbn [react].
    by apply effect_tidy; [apply Hclean | apply Hclean |].
  - intros file settings dom cb. cbn [react].
    destruct (live w) eqn:Hlive.
    + destruct (cleanup_tidy w Htidy) as (Hcleanup & Hnone & _ & Hcommits & _).
      rewrite Hcommits. by apply effect_tidy.
    + cbn [commits]. apply effect_tidy.
      * destruct Htidy as (? & [Hnone|(h & c & _ & _ & _ & ?)] & ?); [|congruence].
        repeat split; [done | by left | done].
      * destruct Htidy as (? & [Hnone|(h & c & _ & _ & _ & ?)] & ?); [done|congruence].
  - apply Htidy.
Qed.

Lemma teardown_cancels_continuation_witness :
  let w := run [] initial in
  let cb := (1, {| gen := 0; cFile := Some clip; cSettings := DEFAULT_SETTINGS |}) in
  cb ∈ callbacks (react w (Commit (Some clip) DEFAULT_SETTINGS (page 4 2 true))) /\
  snd cb = {| gen := commits w; cFile := Some clip; cSettings := DEFAULT_SETTINGS |}.
Proof.
  cbv zeta.
  assert (Hin : (1, {| gen := 0; cFile := Some clip; cSettings := DEFAULT_SETTINGS |})
                ∈ callbacks (react (run [] initial)
                                   (Commit (Some clip) DEFAULT_SETTINGS (page 4 2 true))))
    by (vm_compute; left).
  split; [exact Hin|].
  exact (proj1 (proj2 (proj2 (proj2 (teardown_cancels_continuation []))))
               (Some clip) DEFAULT_SETTINGS (page 4 2 true) _ Hin).
Defined.

(** ** Two passes that end the video loop *)

(** C4 on the code: a video pass that gets no 2D context for its offscreen
    canvas returns without writing a pixel and without raising, but it also
    returns without calling [requestAnimationFrame]; nothing is pending
    afterwards, and at the next refresh, with the context available again,
    no pass runs. A pass whose [getImageData] raises lets the exception
    out, after it has drawn the source on the offscreen canvas, and does
    not call [requestAnimationFrame] either. *)
Theorem no_offscreen_context_ends_loop :
  let failing := processFrame (Some clip) DEFAULT_SETTINGS (page 4 2 false) in
  calls failing = [] /\ outcome failing = Normal tt /\ requested failing = false /\
  let w := run [Commit (Some clip) DEFAULT_SETTINGS (page 4 2 true);
                AnimationFrame (page 4 2 false)] initial in
  callbacks w = [] /\
  length (ran w) = 1%nat /\
  ran (run [AnimationFrame (page 4 2 true)] w) = ran w /\
  requested (processFrame (Some clip) DEFAULT_SETTINGS (page 4 2 true)) = true /\
  let raising := processFrame (Some clip) DEFAULT_SETTINGS unreadable in
  calls raising = [OffscreenDrawSource 2 1] /\
  outcome raising = Throw DOMException /\ requested raising = false.
Proof. vm_compute. repeat split. Qed.


(* ===================================================================== *)
(** * Further properties *)
(* ===================================================================== *)

Import ControlPanel Notions.

(** ** [getBayerValue] and [hexToRgb] *)

Lemma entry_shift_x (x y : nat) : entry (x + 4) y = entry x y.
Proof.
  unfold entry. replace ((x + 4) mod 4)%nat with (x mod 4)%nat; [done|].
  rewrite <- (Nat.Div0.add_mod_idemp_r x 4 4). by rewrite Nat.Div0.mod_same, Nat.add_0_r.
Qed.

Lemma entry_shift_y (x y : nat) : entry x (y + 4) = entry x y.
Proof.
  unfold entry. replace ((y + 4) mod 4)%nat with (y mod 4)%nat; [done|].
  rewrite <- (Nat.Div0.add_mod_idemp_r y 4 4). by rewrite Nat.Div0.mod_same, Nat.add_0_r.
Qed.

(** X1. The dither matrix tiles the plane: moving four pixels right or four
    pixels down gives the same value. *)
Theorem getBayerValue_tiles (x y : nat) :
  getBayerValue (Z.of_nat x + 4) (Z.of_nat y) = getBayerValue (Z.of_nat x) (Z.of_nat y) /\
  getBayerValue (Z.of_nat x) (Z.of_nat y + 4) = getBayerValue (Z.of_nat x) (Z.of_nat y).
Proof.
  replace (Z.of_nat x + 4) with (Z.of_nat (x + 4)) by lia.
  replace (Z.of_nat y + 4) with (Z.of_nat (y + 4)) by lia.
  rewrite !getBayerValue_of_nat. by rewrite entry_shift_x, entry_shift_y.
Qed.

(** X2. Outside the non-negative quadrant the lookup leaves the matrix: a
    row index with a negative remainder raises a TypeError, and with a row
    that exists a column index with a negative remainder gives NaN. *)
Theorem getBayerValue_negative (x y : Z) :
  (Z.rem y 4 < 0 -> getBayerValue x y = Throw TypeError) /\
  (0 <= Z.rem y 4 -> Z.rem x 4 < 0 -> getBayerValue x y = Normal NaN).
Proof.
  unfold getBayerValue, index. split.
  - intros Hy. by rewrite (proj2 (Z.ltb_lt _ _) Hy).
  - intros Hy Hx. rewrite (proj2 (Z.ltb_ge _ _) Hy), (proj2 (Z.ltb_lt _ _) Hx).
    assert (Hb : Z.rem y 4 < 4) by (pose proof (Z.rem_bound_abs y 4 ltac:(lia)); lia).
    destruct (Z.to_nat (Z.rem y 4)) as [|[|[|[|n]]]] eqn:Hn; try reflexivity. lia.
Qed.

Lemma getBayerValue_negative_witness :
  Z.rem (-1) 4 < 0 /\ getBayerValue 0 (-1) = Throw TypeError /\
  0 <= Z.rem 1 4 /\ Z.rem (-3) 4 < 0 /\ getBayerValue (-3) 1 = Normal NaN.
Proof.
  split; [reflexivity|]. split; [exact (proj1 (getBayerValue_negative 0 (-1)) eq_refl)|].
  split; [vm_compute; discriminate|]. split; [reflexivity|].
  exact (proj2 (getBayerValue_negative (-3) 1) ltac:(vm_compute; discriminate) eq_refl).
Defined.

(** ** More on [hexToRgb] *)

Section HexMore.

Ltac every_ascii c := destruct c as [[] [] [] [] [] [] [] []].






Lemma ofZ_byte_inj (n m : Z) : 0 <= n <= 255 -> 0 <= m <= 255 -> ofZ n = ofZ m -> n = m.
Proof.
  intros Hn Hm H. rewrite <- (toUint8Clamp_ofZ n Hn), <- (toUint8Clamp_ofZ m Hm). by rewrite H.
Qed.

Lemma pair_inj (a b c d : Z) :
  0 <= a <= 15 -> 0 <= b <= 15 -> 0 <= c <= 15 -> 0 <= d <= 15 ->
  ofZ (16 * a + b) = ofZ (16 * c + d) -> a = c /\ b = d.
Proof. intros ? ? ? ? H. apply ofZ_byte_inj in H; lia. Qed.

End HexMore.

(** X3. Whatever the string, every channel [hexToRgb] returns is an integer
    between 0 and 255: never NaN, never a fraction, never out of range. *)
Theorem hexToRgb_channels_are_bytes (hex : string) :
  (exists n, 0 <= n <= 255 /\ r (hexToRgb hex) = ofZ n) /\
  (exists n, 0 <= n <= 255 /\ g (hexToRgb hex) = ofZ n) /\
  (exists n, 0 <= n <= 255 /\ b (hexToRgb hex) = ofZ n).
Proof. exact (hexToRgb_bytes hex). Qed.

(** X4. The leading [#] is optional: a string that does not itself start
    with [#] parses to the same colour with and without one in front. *)
Theorem hexToRgb_hash_optional (hex : string) :
  (forall rest, hex <> String "#" rest) ->
  hexToRgb (String "#" hex) = hexToRgb hex.
Proof.
  intros Hno.
  assert (Hsame : sixHexDigits (String "#" hex) = sixHexDigits hex).
  { unfold sixHexDigits. cbn [list_ascii_of_string]. rewrite Ascii.eqb_refl.
    destruct hex as [|c rest]; [done|]. cbn [list_ascii_of_string].
    destruct (Ascii.eqb_spec c "#") as [->|_]; [by destruct (Hno rest)|done]. }
  pose proof (hexToRgb_sixHexDigits (String "#" hex)) as H1.
  pose proof (hexToRgb_sixHexDigits hex) as H2. rewrite Hsame in H1.
  destruct (sixHexDigits hex) as [[|d1 [|d2 [|d3 [|d4 [|d5 [|d6 [|d7 body]]]]]]]|];
    by rewrite H1, H2.
Qed.

Lemma hexToRgb_hash_optional_witness :
  (forall rest, "e6e0d4"%string <> String "#" rest) /\
  hexToRgb "#e6e0d4" = hexToRgb "e6e0d4".
Proof.
  assert (H : forall rest, "e6e0d4"%string <> String "#" rest) by (intros rest; discriminate).
  split; [exact H|]. exact (hexToRgb_hash_optional "e6e0d4" H).
Defined.


(** X6. Only strings of six characters, or of seven with [#] in front, can
    give anything but black: the empty string, three-digit shorthands such
    as [#fff], eight-digit colours with alpha and padded strings all fall
    back to [{0, 0, 0}]. *)
Theorem hexToRgb_other_lengths_black (hex : string) :
  String.length hex <> 6%nat ->
  ~ (String.length hex = 7%nat /\ exists rest, hex = String "#" rest) ->
  hexToRgb hex = {| r := ofZ 0; g := ofZ 0; b := ofZ 0 |}.
Proof.
  intros H6 H7. pose proof (hexToRgb_sixHexDigits hex) as H.
  destruct (sixHexDigits hex) as [body|] eqn:Hsix; [|exact H].
  exfalso. pose proof (sixHexDigits_Some hex body Hsix) as [Hlen _].
  unfold sixHexDigits in Hsix.
  assert (Hl : String.length hex = length (list_ascii_of_string hex)).
  { clear. induction hex as [|c s IH]; [done|]. cbn. by rewrite IH. }
  destruct hex as [|c rest]; [cbn in Hsix; discriminate|].
  cbn [list_ascii_of_string] in Hsix, Hl.
  destruct (Ascii.eqb_spec c "#") as [->|_];
    destruct (_ && _); try discriminate; injection Hsix as <-.
  - apply H7. split; [rewrite Hl; cbn; lia | by exists rest].
  - apply H6. by rewrite Hl.
Qed.

Lemma hexToRgb_other_lengths_black_witness :
  String.length "#fff" <> 6%nat /\
  ~ (String.length "#fff" = 7%nat /\ exists rest, "#fff"%string = String "#" rest) /\
  hexToRgb "#fff" = {| r := ofZ 0; g := ofZ 0; b := ofZ 0 |}.
Proof.
  assert (H6 : String.length "#fff" <> 6%nat) by (cbn; lia).
  assert (H7 : ~ (String.length "#fff" = 7%nat /\ exists rest, "#fff"%string = String "#" rest))
    by (cbn; lia).
  split; [exact H6|]. split; [exact H7|].
  exact (hexToRgb_other_lengths_black "#fff" H6 H7).
Defined.

(** X7. Two strings of six hexadecimal digits (with or without [#]) give
    the same colour exactly when their digits have the same values: no two
    different colours are confused. *)
Theorem hexToRgb_injective (hex1 hex2 : string) (digits1 digits2 : list ascii) :
  sixHexDigits hex1 = Some digits1 -> sixHexDigits hex2 = Some digits2 ->
  (hexToRgb hex1 = hexToRgb hex2 <-> map hexValue digits1 = map hexValue digits2).
Proof.
  intros H1 H2.
  pose proof (hexToRgb_sixHexDigits hex1) as E1. pose proof (hexToRgb_sixHexDigits hex2) as E2.
  destruct (sixHexDigits_Some _ _ H1) as [L1 _]. destruct (sixHexDigits_Some _ _ H2) as [L2 _].
  rewrite H1 in E1. rewrite H2 in E2.
  destruct digits1 as [|a1 [|a2 [|a3 [|a4 [|a5 [|a6 [|a7 ?]]]]]]]; try discriminate L1.
  destruct digits2 as [|b1 [|b2 [|b3 [|b4 [|b5 [|b6 [|b7 ?]]]]]]]; try discriminate L2.
  rewrite E1, E2. cbn [map]. split.
  - intros [= Hr Hg Hb].
    apply pair_inj in Hr as [-> ->]; try apply hexValue_range.
    apply pair_inj in Hg as [-> ->]; try apply hexValue_range.
    apply pair_inj in Hb as [-> ->]; try apply hexValue_range.
    reflexivity.
  - by intros [= -> -> -> -> -> ->].
Qed.

Lemma hexToRgb_injective_witness :
  sixHexDigits "#E6E0D4" = Some (list_ascii_of_string "E6E0D4") /\
  sixHexDigits "e6e0d4" = Some (list_ascii_of_string "e6e0d4") /\
  (hexToRgb "#E6E0D4" = hexToRgb "e6e0d4" <->
   map hexValue (list_ascii_of_string "E6E0D4") = map hexValue (list_ascii_of_string "e6e0d4")).
Proof.
  split; [reflexivity|]. split; [reflexivity|].
  exact (hexToRgb_injective "#E6E0D4" "e6e0d4" _ _ eq_refl eq_refl).
Defined.

(** ** The pixel loop *)

Section LoopMore.



Lemma gt_add_zero (l t : num) (s : bool) : gt (add l (S754_zero s)) t = gt l t.
Proof.
  unfold gt, add.
  destruct l as [sl|sl| |sl ml el]; try reflexivity.
  destruct sl, s, t as [st|st| |st mt et]; reflexivity.
Qed.

Lemma no_dither_offset (x y : nat) :
  exists s, mul (sub (scaled (entry x y)) (ofZ 128)) (ofZ 0) = S754_zero s.
Proof.
  unfold entry.
  pose proof (Nat.mod_upper_bound x 4 ltac:(lia)) as Hx.
  pose proof (Nat.mod_upper_bound y 4 ltac:(lia)) as Hy.
  destruct (x mod 4)%nat as [|[|[|[|?]]]]; try lia;
    destruct (y mod 4)%nat as [|[|[|[|?]]]]; try lia; vm_compute; eauto.
Qed.

Lemma mul_nan (v : num) : mul v NaN = NaN.
Proof. by destruct v. Qed.

Lemma add_nan_r (v : num) : add v NaN = NaN.
Proof. by destruct v. Qed.

Lemma add_nan_l (v : num) : add NaN v = NaN.
Proof. reflexivity. Qed.

Lemma gt_nan_l (t : num) : gt NaN t = false.
Proof. reflexivity. Qed.

Lemma gt_nan_r (v : num) : gt v NaN = false.
Proof. by destruct v. Qed.

Lemma countRows_none (f : nat -> nat -> bool) (w h : nat) :
  (forall x y, f x y = false) -> countRows f w h = 0%nat.
Proof.
  intros Hf. induction h as [|h IH]; [done|]. cbn [countRows]. rewrite IH.
  clear IH. induction w as [|w IH]; [done|]. cbn [count]. rewrite Hf. lia.
Qed.

End LoopMore.

(** X8. The loop is safe on any buffer: it ends normally whatever the
    length of the buffer, keeps that length, and leaves every byte beyond
    the surface as it was; with an empty surface the buffer is returned
    unchanged. *)
Theorem ditherPixels_in_bounds (settings : RetroSettings) (procW procH : nat) (data : list Z) :
  exists out,
    ditherPixels settings procW procH data = Normal out /\
    length out = length data /\
    (forall j, (4 * procW * procH <= j)%nat -> out !! j = data !! j) /\
    (procW = 0%nat \/ procH = 0%nat -> out = data).
Proof.
  destruct (ditherLoop_done settings procW data procH) as (out & Hrun & Hlen & Hsame & _).
  cbn [fst] in *. exists out. split; [unfold ditherPixels; by rewrite Hrun|].
  split; [exact Hlen|]. split.
  - intros j Hj. apply Hsame. lia.
  - intros Hempty. apply list_eq. intros j. apply Hsame. destruct Hempty; subst; lia.
Qed.

(** X9. With [ditherAmount] 0 the position of a pixel plays no part: two
    pixels of the surface with the same red, green and blue in the source
    get the same output, so a uniform source gives a uniform frame. *)
Theorem no_dither_ignores_position (settings : RetroSettings) (procW procH : nat)
        (data : list Z) :
  ditherAmount settings = ofZ 0 ->
  length data = (4 * procW * procH)%nat ->
  exists out,
    ditherPixels settings procW procH data = Normal out /\
    forall x y x' y',
      (x < procW)%nat -> (y < procH)%nat -> (x' < procW)%nat -> (y' < procH)%nat ->
      take 3 (pixelAt procW data x y) = take 3 (pixelAt procW data x' y') ->
      pixelAt procW out x y = pixelAt procW out x' y'.
Proof.
  intros Hzero Hlen.
  destruct (ditherPixels_surface settings procW procH data Hlen) as (out & Hrun & Hpix).
  exists out. split; [exact Hrun|].
  intros x y x' y' Hx Hy Hx' Hy' Hsame.
  rewrite (Hpix x y Hx Hy), (Hpix x' y' Hx' Hy'). f_equal.
  unfold colorAt. replace (lightAt settings procW data x' y')
    with (lightAt settings procW data x y); [done|].
  unfold pixelAt in Hsame. cbn [take] in Hsame. injection Hsame as Hr Hg Hb.
  unfold lightAt, lightRgb. rewrite Hr, Hg, Hb, Hzero.
  destruct (no_dither_offset x y) as [s ->]. destruct (no_dither_offset x' y') as [s' ->].
  by rewrite !gt_add_zero.
Qed.

Lemma no_dither_ignores_position_witness :
  let settings :=
    {| pixelSize := 6; threshold := ofZ 110; ditherAmount := ofZ 0;
       contrast := ofZ 1; colorDark := "#1a1a14"; colorLight := "#e6e0d4";
       invert := false; gridLine := false |} in
  let data := [128; 128; 128; 255; 128; 128; 128; 0] in
  ditherAmount settings = ofZ 0 /\ length data = (4 * 2 * 1)%nat /\
  exists out, ditherPixels settings 2 1 data = Normal out /\
              pixelAt 2 out 0 0 = pixelAt 2 out 1 0.
Proof.
  cbv zeta. split; [reflexivity|]. split; [reflexivity|].
  destruct (no_dither_ignores_position
              {| pixelSize := 6; threshold := ofZ 110; ditherAmount := ofZ 0;
                 contrast := ofZ 1; colorDark := "#1a1a14"; colorLight := "#e6e0d4";
                 invert := false; gridLine := false |}
              2%nat 1%nat [128; 128; 128; 255; 128; 128; 128; 0] eq_refl eq_refl)
    as (out & Hrun & Hsame).
  exists out. split; [exact Hrun|].
  apply Hsame; [lia | lia | lia | lia | reflexivity].
Defined.

(** X10. A setting that is not a number turns the frame dark: when
    [contrast], [ditherAmount] or [threshold] is NaN no pixel is classified
    as light, and every pixel of the surface gets the effective dark
    colour; nothing is raised. *)
Theorem nan_setting_all_dark (settings : RetroSettings) (procW procH : nat) (data : list Z) :
  contrast settings = NaN \/ ditherAmount settings = NaN \/ threshold settings = NaN ->
  lightCount settings procW procH data = Normal 0%nat /\
  (length data = (4 * procW * procH)%nat ->
   exists out,
     ditherPixels settings procW procH data = Normal out /\
     forall x y, (x < procW)%nat -> (y < procH)%nat ->
                 pixelAt procW out x y = opaque (darkOf settings)).
Proof.
  intros Hnan.
  assert (Hdark : forall x y, lightAt settings procW data x y = false).
  { intros x y. unfold lightAt, lightRgb.
    destruct Hnan as [->|[->| ->]];
      by rewrite ?mul_nan, ?add_nan_l, ?add_nan_r, ?gt_nan_l, ?gt_nan_r. }
  split.
  - rewrite lightCount_total. f_equal. by apply countRows_none.
  - intros Hlen.
    destruct (ditherPixels_surface settings procW procH data Hlen) as (out & Hrun & Hpix).
    exists out. split; [exact Hrun|]. intros x y Hx Hy.
    rewrite (Hpix x y Hx Hy). unfold colorAt. by rewrite Hdark.
Qed.

Lemma nan_setting_all_dark_witness :
  let settings :=
    {| pixelSize := 6; threshold := ofZ 110; ditherAmount := ofZ 0;
       contrast := NaN; colorDark := "#1a1a14"; colorLight := "#e6e0d4";
       invert := false; gridLine := false |} in
  (contrast settings = NaN \/ ditherAmount settings = NaN \/ threshold settings = NaN) /\
  lightCount settings 2 1 [255; 255; 255; 255; 255; 255; 255; 255] = Normal 0%nat.
Proof.
  cbv zeta. split; [by left|].
  exact (proj1 (nan_setting_all_dark
                  {| pixelSize := 6; threshold := ofZ 110; ditherAmount := ofZ 0;
                     contrast := NaN; colorDark := "#1a1a14"; colorLight := "#e6e0d4";
                     invert := false; gridLine := false |}
                  2%nat 1%nat [255; 255; 255; 255; 255; 255; 255; 255]
                  (or_introl eq_refl))).
Defined.


Section Greys.

Lemma num_le_trans (a b c : num) : le a b = true -> le b c = true -> le a c = true.
Proof.
  unfold le, SFleb.
  destruct a as [sa|sa| |sa ma ea], b as [sb|sb| |sb mb eb], c as [sc|sc| |sc mc ec];
    cbn; try discriminate; try reflexivity;
    repeat match goal with s : bool |- _ => destruct s end;
    cbn; try discriminate; try reflexivity.
  all: repeat match goal with
         | |- context [(?a ?= ?b)%Z] => destruct (Z.compare_spec a b)
         | |- context [Pos.compare_cont Eq ?a ?b] =>
             change (Pos.compare_cont Eq a b) with (Pos.compare a b);
             destruct (Pos.compare_spec a b)
         end; cbn; try discriminate; try reflexivity; try lia.
Qed.

Lemma greysBracketed_spec (vs : list Z) (v : Z) :
  greysBracketed vs = true -> In v vs ->
  gt (greyLuma v) (ofZ v) = false /\ gt (greyLuma v) (ofZ (v - 1)) = true /\
  le (ofZ (v - 1)) (ofZ v) = true /\ le (ofZ v) (ofZ v) = true.
Proof.
  intros Hall Hin. unfold greysBracketed in Hall. rewrite forallb_forall in Hall.
  specialize (Hall v Hin). rewrite !andb_true_iff, negb_true_iff in Hall. tauto.
Qed.

Lemma greys_bracketed (v : Z) :
  0 <= v <= 255 ->
  gt (greyLuma v) (ofZ v) = false /\ gt (greyLuma v) (ofZ (v - 1)) = true /\
  le (ofZ (v - 1)) (ofZ v) = true /\ le (ofZ v) (ofZ v) = true.
Proof.
  intros Hv. apply (greysBracketed_spec bytes).
  - vm_compute. reflexivity.
  - apply list_elem_of_In, bytes_spec, Hv.
Qed.

(** The integers from 0 to 255 are in order as doubles. *)
Lemma ofZ_le (a b : Z) : 0 <= a <= b -> b <= 255 -> le (ofZ a) (ofZ b) = true.
Proof.
  intros Ha Hb. replace b with (a + Z.of_nat (Z.to_nat (b - a))) in * by lia.
  induction (Z.to_nat (b - a)) as [|n IH].
  - rewrite Z.add_0_r. apply greys_bracketed. lia.
  - apply (num_le_trans _ (ofZ (a + Z.of_nat n))); [apply IH; lia|].
    replace (a + Z.of_nat n) with (a + Z.of_nat (S n) - 1) by lia.
    apply greys_bracketed. lia.
Qed.

(** A grey is above an integer threshold exactly when its value is. *)
Lemma greyLuma_threshold (v t : Z) :
  0 <= v <= 255 -> 0 <= t <= 255 -> gt (greyLuma v) (ofZ t) = (t <? v).
Proof.
  intros Hv Ht. destruct (greys_bracketed v Hv) as (Hnot & Habove & _).
  destruct (Z.ltb_spec t v) as [Hlt|Hge].
  - apply (gt_le_trans _ _ _ Habove). apply ofZ_le; lia.
  - destruct (gt (greyLuma v) (ofZ t)) eqn:Hgt; [|done].
    rewrite <- Hnot. symmetry. apply (gt_le_trans _ _ _ Hgt). apply ofZ_le; lia.
Qed.

End Greys.

(** X12. Greys meet integer thresholds exactly: with contrast 1 and
    [ditherAmount] 0, a pixel of the surface whose source is the grey
    [(v, v, v)] gets the effective light colour when [v] is above the
    threshold and the effective dark colour otherwise, for all [v] and all
    integer thresholds from 0 to 255; the rounding of the luma weights
    never moves a grey across a threshold. *)
Theorem grey_threshold_exact (settings : RetroSettings) (t : Z) (procW procH : nat)
        (data : list Z) :
  contrast settings = ofZ 1 -> ditherAmount settings = ofZ 0 ->
  threshold settings = ofZ t -> 0 <= t <= 255 ->
  length data = (4 * procW * procH)%nat ->
  exists out,
    ditherPixels settings procW procH data = Normal out /\
    forall x y v alpha,
      (x < procW)%nat -> (y < procH)%nat -> 0 <= v <= 255 ->
      pixelAt procW data x y = [Some v; Some v; Some v; Some alpha] ->
      pixelAt procW out x y
      = opaque (if t <? v then lightOf settings else darkOf settings).
Proof.
  intros Hc Ha Ht Hrange Hlen.
  destruct (ditherPixels_surface settings procW procH data Hlen) as (out & Hrun & Hpix).
  exists out. split; [exact Hrun|]. intros x y v alpha Hx Hy Hv Hsrc.
  rewrite (Hpix x y Hx Hy). f_equal. unfold colorAt.
  replace (lightAt settings procW data x y) with (t <? v); [done|].
  unfold pixelAt in Hsrc. injection Hsrc as Hr Hg Hb _.
  unfold lightAt, lightRgb. rewrite Hr, Hg, Hb, Hc, Ha, Ht. cbn [toNumber].
  destruct (no_dither_offset x y) as [s ->]. rewrite gt_add_zero.
  symmetry. exact (greyLuma_threshold v t Hv Hrange).
Qed.

Lemma grey_threshold_exact_witness :
  let settings :=
    {| pixelSize := 6; threshold := ofZ 110; ditherAmount := ofZ 0;
       contrast := ofZ 1; colorDark := "#1a1a14"; colorLight := "#e6e0d4";
       invert := false; gridLine := false |} in
  let data := [128; 128; 128; 255] in
  contrast settings = ofZ 1 /\ ditherAmount settings = ofZ 0 /\
  threshold settings = ofZ 110 /\ 0 <= 110 <= 255 /\
  length data = (4 * 1 * 1)%nat /\
  exists out, ditherPixels settings 1 1 data = Normal out /\
              pixelAt 1 out 0 0 = opaque (lightOf settings).
Proof.
  cbv zeta. repeat (split; [first [reflexivity | lia]|]).
  destruct (grey_threshold_exact
              {| pixelSize := 6; threshold := ofZ 110; ditherAmount := ofZ 0;
                 contrast := ofZ 1; colorDark := "#1a1a14"; colorLight := "#e6e0d4";
                 invert := false; gridLine := false |}
              110 1%nat 1%nat [128; 128; 128; 255] eq_refl eq_refl eq_refl
              ltac:(lia) eq_refl) as (out & Hrun & Hpix).
  exists out. split; [exact Hrun|].
  exact (Hpix 0%nat 0%nat 128 255 ltac:(lia) ltac:(lia) ltac:(lia) eq_refl).
Defined.

(** ** One pass *)

(** X13. A pass for anything but a video never asks for another frame:
    a still image is processed once and the loop is not armed. *)
Theorem still_pass_never_requests (file : option UploadedFile) (settings : RetroSettings)
        (dom : Dom) :
  hasType file video = false -> requested (processFrame file settings dom) = false.
Proof.
  intros Hstill. destruct (requested _) eqn:Hreq; [|done].
  apply requested_video in Hreq. congruence.
Qed.

Lemma still_pass_never_requests_witness :
  let photo := {| url := "blob:photo"; type := Some image; name := "photo.png" |} in
  hasType (Some photo) video = false /\
  requested (processFrame (Some photo) DEFAULT_SETTINGS (page 4 2 true)) = false.
Proof.
  cbv zeta. split; [reflexivity|].
  exact (still_pass_never_requests
           (Some {| url := "blob:photo"; type := Some image; name := "photo.png" |})
           DEFAULT_SETTINGS (page 4 2 true) eq_refl).
Defined.

Section DrawingPass.

Lemma overlay_draws_nothing (settings : RetroSettings) (displayW displayH : Z)
      (out : list Z) (a b c d : Z) :
  DrawOffscreen out a b c d ∉ overlay settings displayW displayH.
Proof.
  unfold overlay, scanlines. destruct (gridLine settings); [|by intros ?%elem_of_nil].
  rewrite !elem_of_app, !elem_of_cons, !elem_of_nil, scanRows_spec by lia.
  intros [[H|[H|[]]]|[(k & _ & _ & H)|[H|[]]]]; discriminate H.
Qed.

Lemma pipeline_drawing (file : option UploadedFile) (settings : RetroSettings) (dom : Dom)
      (canvas : Canvas) (containerW containerH sourceW sourceH : Z)
      (out : list Z) (procW procH displayW displayH : Z) :
  (exists f, file = Some f) ->
  DrawOffscreen out procW procH displayW displayH
    ∈ calls (pipeline file settings dom canvas containerW containerH sourceW sourceH) ->
  calls (pipeline file settings dom canvas containerW containerH sourceW sourceH)
  = (if (width canvas =? displayW) && (height canvas =? displayH)
     then [] else [Resize displayW displayH])
      ++ [OffscreenDrawSource procW procH;
          OffscreenPutImageData out;
          SetImageSmoothingEnabled false;
          DrawOffscreen out procW procH displayW displayH]
      ++ overlay settings displayW displayH /\
  requested (pipeline file settings dom canvas containerW containerH sourceW sourceH)
  = hasType file video /\
  outcome (pipeline file settings dom canvas containerW containerH sourceW sourceH) = Normal tt.
Proof.
  intros [f ->]. unfold pipeline, returned, raised.
  destruct (_ || _); [by intros ?%elem_of_nil|].
  destruct (displaySize _ _ _ _) as [[dW|] [dH|]]; cbn [calls];
    try (rewrite elem_of_cons, elem_of_nil; by intros [?|[]]).
  set (resize := if (width canvas =? dW) && (height canvas =? dH) then [] else [Resize dW dH]).
  assert (Hresize : forall a b c d, DrawOffscreen out a b c d ∉ resize).
  { intros a b c d. unfold resize. destruct (_ && _);
      rewrite ?elem_of_cons, elem_of_nil; [tauto | by intros [?|[]]]. }
  destruct (offscreenContext2d dom); cbn [negb calls]; [|by intros ?%Hresize].
  destruct (imageData dom _ _) as [data|e]; cbn [calls].
  2:{ rewrite elem_of_app, elem_of_cons, elem_of_nil. by intros [?%Hresize|[?|[]]]. }
  destruct (ditherPixels _ _ _ _) as [out'|e]; cbn [calls requested outcome].
  2:{ rewrite elem_of_app, elem_of_cons, elem_of_nil. by intros [?%Hresize|[?|[]]]. }
  rewrite !elem_of_app, !elem_of_cons, elem_of_nil.
  intros [[?%Hresize|[?|[]]]|[[?|[?|[Heq|[]]]]|?%overlay_draws_nothing]]; try done.
  injection Heq as -> -> -> -> ->. by rewrite <- app_assoc.
Qed.

End DrawingPass.

(** X14. A pass that draws makes exactly these calls, in this order: the
    resize of the display canvas if and only if its size differs from the
    display size, the source drawn on the offscreen canvas, the processed
    pixels put back, smoothing switched off, one upscaling draw, and the
    overlay last. It ends normally and asks for another frame exactly when
    the file is a video. *)
Theorem drawing_pass_calls (file : option UploadedFile) (settings : RetroSettings)
        (dom : Dom) (out : list Z) (procW procH displayW displayH : Z) :
  DrawOffscreen out procW procH displayW displayH ∈ calls (processFrame file settings dom) ->
  exists canvas,
    canvasRef dom = Some canvas /\
    calls (processFrame file settings dom)
    = (if (width canvas =? displayW) && (height canvas =? displayH)
       then [] else [Resize displayW displayH])
        ++ [OffscreenDrawSource procW procH;
            OffscreenPutImageData out;
            SetImageSmoothingEnabled false;
            DrawOffscreen out procW procH displayW displayH]
        ++ overlay settings displayW displayH /\
    requested (processFrame file settings dom) = hasType file video /\
    outcome (processFrame file settings dom) = Normal tt.
Proof.
  unfold processFrame, returned.
  destruct (canvasRef dom) as [canvas|]; [|by intros ?%elem_of_nil].
  destruct (containerRef dom) as [[containerW containerH]|]; [|by intros ?%elem_of_nil].
  destruct (context2d canvas); [|by intros ?%elem_of_nil]. cbn [negb].
  assert (Hfile : forall k, hasType file k = true -> exists f, file = Some f).
  { intros k. destruct file; [eauto|discriminate]. }
  destruct (hasType file video) eqn:Hvideo.
  - destruct (videoRef dom) as [[vw vh]|].
    + destruct (vw =? 0); [by intros ?%elem_of_nil|].
      intros Hin. exists canvas. split; [done|].
      destruct (pipeline_drawing file settings dom canvas _ _ _ _ _ _ _ _ _
                                 (Hfile video Hvideo) Hin) as (Hc & Hr & Ho).
      by rewrite Hvideo in Hr.
    + destruct (hasType file image) eqn:Himage; [|by intros ?%elem_of_nil].
      destruct (imageRef dom) as [[nw nh]|]; [|by intros ?%elem_of_nil].
      destruct (nw =? 0); [by intros ?%elem_of_nil|].
      intros Hin. exists canvas. split; [done|].
      destruct (pipeline_drawing file settings dom canvas _ _ _ _ _ _ _ _ _
                                 (Hfile video Hvideo) Hin) as (Hc & Hr & Ho).
      by rewrite Hvideo in Hr.
  - destruct (hasType file image) eqn:Himage; [|by intros ?%elem_of_nil].
    destruct (imageRef dom) as [[nw nh]|]; [|by intros ?%elem_of_nil].
    destruct (nw =? 0); [by intros ?%elem_of_nil|].
    intros Hin. exists canvas. split; [done|].
    destruct (pipeline_drawing file settings dom canvas _ _ _ _ _ _ _ _ _
                               (Hfile image Himage) Hin) as (Hc & Hr & Ho).
    by rewrite Hvideo in Hr.
Qed.

Lemma drawing_pass_calls_witness :
  let out := [26; 26; 20; 255; 230; 224; 212; 255] in
  DrawOffscreen out 2 1 12 6
    ∈ calls (processFrame (Some clip) DEFAULT_SETTINGS (page 4 2 true)) /\
  requested (processFrame (Some clip) DEFAULT_SETTINGS (page 4 2 true)) = true.
Proof.
  cbv zeta.
  assert (Hin : DrawOffscreen [26; 26; 20; 255; 230; 224; 212; 255] 2 1 12 6
                ∈ calls (processFrame (Some clip) DEFAULT_SETTINGS (page 4 2 true)))
    by (vm_compute; do 3 right; left).
  split; [exact Hin|].
  destruct (drawing_pass_calls _ _ _ _ _ _ _ _ Hin) as (canvas & _ & _ & Hreq & _).
  exact Hreq.
Defined.

(** X15. Without a display canvas, its container or its 2D context, or
    without a source element for the file, a pass does nothing at all: no
    call on a canvas, no request for another frame, nothing raised. This
    covers the placeholder state with no file and a callback that fires
    after the elements are gone. *)
Theorem pass_without_surface_or_source (file : option UploadedFile)
        (settings : RetroSettings) (dom : Dom) :
  canvasRef dom = None \/ containerRef dom = None \/
  (exists canvas, canvasRef dom = Some canvas /\ context2d canvas = false) \/
  sourceSize file dom = None ->
  processFrame file settings dom = returned [] false.
Proof.
  unfold processFrame, sourceSize.
  intros [->|[Hcontainer|[(canvas & -> & Hctx)|Hsource]]].
  - done.
  - rewrite Hcontainer. by destruct (canvasRef dom).
  - rewrite Hctx. by destruct (containerRef dom) as [[? ?]|].
  - destruct (canvasRef dom) as [canvas|]; [|done].
    destruct (containerRef dom) as [[? ?]|]; [|done].
    destruct (context2d canvas); [|done]. cbn [negb].
    destruct (if hasType file video then videoRef dom else None); [done|].
    by rewrite Hsource.
Qed.

Lemma pass_without_surface_or_source_witness :
  sourceSize None (page 4 2 true) = None /\
  processFrame None DEFAULT_SETTINGS (page 4 2 true) = returned [] false.
Proof.
  split; [reflexivity|].
  exact (pass_without_surface_or_source None DEFAULT_SETTINGS (page 4 2 true)
           (or_intror (or_intror (or_intror eq_refl)))).
Defined.

Section GridLine.
Variables (file : option UploadedFile) (settings : RetroSettings) (dom : Dom).

Lemma scanlines_only (w h : Z) : onlyScanlineCalls (scanlines w h).
Proof.
  intros c Hc. unfold scanlines in Hc.
  rewrite !elem_of_app, !elem_of_cons, !elem_of_nil in Hc.
  destruct Hc as [[->|[->|[]]]|[Hc|[->|[]]]]; eauto.
  destruct (Z_lt_le_dec h 0) as [Hneg|Hpos].
  - replace (Z.to_nat h) with 0%nat in Hc by lia. by apply elem_of_nil in Hc.
  - apply scanRows_spec in Hc as (k & _ & _ & ->); [eauto|lia].
Qed.

Lemma nothing_only : onlyScanlineCalls [].
Proof. by intros c ?%elem_of_nil. Qed.

Lemma extends_refl (p : Pass) : extends p p.
Proof.
  split; [done|]. split; [done|]. exists []. split; [by rewrite app_nil_r|apply nothing_only].
Qed.

Lemma pipeline_extends (canvas : Canvas) (cw ch sw sh : Z) :
  extends (pipeline file (handleGridLine false settings) dom canvas cw ch sw sh)
          (pipeline file (handleGridLine true settings) dom canvas cw ch sw sh).
Proof.
  unfold pipeline.
  change (ditherPixels (handleGridLine true settings))
    with (ditherPixels (handleGridLine false settings)).
  change (procSize (handleGridLine true settings))
    with (procSize (handleGridLine false settings)).
  destruct ((sw =? 0) || (sh =? 0)); [apply extends_refl|].
  destruct (displaySize cw ch sw sh) as [[dw|] [dh|]]; try apply extends_refl.
  destruct (negb (offscreenContext2d dom)); [apply extends_refl|].
  destruct (imageData dom _ _) as [data|e]; [|apply extends_refl].
  destruct (ditherPixels _ _ _ data) as [out|e]; [|apply extends_refl].
  unfold overlay. cbn [gridLine handleGridLine].
  destruct file as [f|]; (split; [done|]); (split; [done|]);
    exists (scanlines dw dh); cbn [calls returned raised];
    (split; [by rewrite app_nil_r, <- !app_assoc|apply scanlines_only]).
Qed.

End GridLine.

(** X16. Scanlines only add to a pass: switching [gridLine] on leaves the
    outcome and the request for the next frame as they are and appends calls
    to those of the pass without it, each of which sets the composite
    operation, sets the fill style or fills a one pixel high row from the
    left edge: the image is drawn as before and the canvas is not resized
    again. *)
Theorem gridLine_only_appends (file : option UploadedFile) (settings : RetroSettings)
        (dom : Dom) :
  let plain := processFrame file (handleGridLine false settings) dom in
  let lined := processFrame file (handleGridLine true settings) dom in
  requested lined = requested plain /\
  outcome lined = outcome plain /\
  exists added,
    calls lined = calls plain ++ added /\
    forall c, c ∈ added ->
              (exists mode, c = SetGlobalCompositeOperation mode) \/
              (exists style, c = SetFillStyle style) \/
              (exists y w, c = FillRect 0 y w 1).
Proof.
  cbv zeta. change (extends
                      (processFrame file (handleGridLine false settings) dom)
                      (processFrame file (handleGridLine true settings) dom)).
  unfold processFrame.
  destruct (canvasRef dom) as [canvas|]; [|apply extends_refl].
  destruct (containerRef dom) as [[cw ch]|]; [|apply extends_refl].
  destruct (negb (context2d canvas)); [apply extends_refl|].
  destruct (if hasType file video then videoRef dom else None) as [[vw vh]|].
  - destruct (vw =? 0); [apply extends_refl|apply pipeline_extends].
  - destruct (if hasType file image then imageRef dom else None) as [[nw nh]|];
      [|apply extends_refl].
    destruct (nw =? 0); [apply extends_refl|apply pipeline_extends].
Qed.

Section Raising.


End Raising.



(** X18. The processing resolution between its bounds: for a pixel size of
    at least 1 and a display dimension of at least that size, the surface
    has as many cells as whole blocks of [pixelSize] display pixels fit, so
    the blocks cover the display up to less than one block; a larger pixel
    size never gives a larger surface, and a larger display never a smaller
    one. *)
Theorem procSize_bounds (s1 s2 : RetroSettings) (display display' : Z) :
  1 <= pixelSize s1 <= pixelSize s2 -> pixelSize s1 <= display <= display' ->
  procSize s1 display * pixelSize s1 <= display < (procSize s1 display + 1) * pixelSize s1 /\
  1 <= procSize s2 display <= procSize s1 display /\
  procSize s1 display <= procSize s1 display' /\
  procSize s1 display <= display.
Proof.
  intros Hsize Hdisplay. unfold procSize.
  rewrite (Z.max_r 1 (pixelSize s1)), (Z.max_r 1 (pixelSize s2)) by lia.
  assert (H1 : 1 <= display / pixelSize s1).
  { apply Z.div_le_lower_bound; lia. }
  assert (H2 : display / pixelSize s2 <= display / pixelSize s1).
  { apply Z.div_le_compat_l; lia. }
  assert (H3 : display / pixelSize s1 <= display' / pixelSize s1).
  { apply Z.div_le_mono; lia. }
  pose proof (Z.mul_div_le display (pixelSize s1) ltac:(lia)) as H4.
  pose proof (Z.mul_succ_div_gt display (pixelSize s1) ltac:(lia)) as H5.
  assert (H6 : display / pixelSize s1 <= display).
  { apply Z.div_le_upper_bound; [lia|]. nia. }
  rewrite (Z.max_r 1 (display / pixelSize s1)) by lia.
  rewrite (Z.max_r 1 (display' / pixelSize s1)) by lia.
  repeat split; try lia; try nia.
Qed.

Lemma procSize_bounds_witness :
  1 <= pixelSize DEFAULT_SETTINGS <= pixelSize DEFAULT_SETTINGS /\
  procSize DEFAULT_SETTINGS 1000 * pixelSize DEFAULT_SETTINGS <= 1000
  < (procSize DEFAULT_SETTINGS 1000 + 1) * pixelSize DEFAULT_SETTINGS.
Proof.
  split; [cbn; lia|].
  apply (procSize_bounds DEFAULT_SETTINGS DEFAULT_SETTINGS 1000 1000); cbn; lia.
Defined.

(** X19. The processing resolution as the doubles compute it: for the
    pixel sizes of the slider (1 to 24) and display dimensions up to 1024,
    [Math.floor(display / Math.max(1, pixelSize))] in binary64 arithmetic is
    the exact integer quotient, so [Math.max(1, ...)] of it is the
    processing dimension: the division never rounds across an integer. *)
Theorem procSize_in_doubles (settings : RetroSettings) (display : Z) :
  1 <= pixelSize settings <= 24 -> 0 <= display <= 1024 ->
  Z.max 1 <$> floorOfQuotient display (Z.max 1 (pixelSize settings))
  = Some (procSize settings display).
Proof.
  intros Hsize Hdisplay. rewrite floorOfQuotient_exact by lia. reflexivity.
Qed.

Lemma procSize_in_doubles_witness :
  1 <= pixelSize DEFAULT_SETTINGS <= 24 /\
  Z.max 1 <$> floorOfQuotient 1000 (Z.max 1 (pixelSize DEFAULT_SETTINGS))
  = Some (procSize DEFAULT_SETTINGS 1000).
Proof.
  split; [cbn; lia|].
  apply (procSize_in_doubles DEFAULT_SETTINGS 1000); cbn; lia.
Defined.

(** ** The frame loop *)

Section LoopTraces.

(** The world a commit leaves behind its clean-up: tidy, nothing pending,
    no effect set up, the passes and the count of commits as before. *)
Lemma commit_cleans (w : World) :
  tidy w ->
  let w' := match live w with
            | Some _ => cleanup w
            | None => {| requestRef := None; callbacks := callbacks w;
                         lastHandle := lastHandle w; live := None;
                         commits := commits w; ran := ran w |}
            end in
  tidy w' /\ callbacks w' = [] /\ commits w' = commits w /\ ran w' = ran w.
Proof.
  intros Htidy. cbv zeta. destruct (live w) eqn:Hlive.
  - destruct (cleanup_tidy w Htidy) as (? & ? & _ & ? & ?). auto.
  - destruct Htidy as (? & [Hnone|(h & c & _ & _ & _ & ?)] & ?); [|congruence].
    repeat split; try done. by left.
Qed.

Lemma pending_at_most_one (w : World) : tidy w -> (length (callbacks w) <= 1)%nat.
Proof.
  intros (_ & [->|(h & c & -> & _)] & _); cbn; lia.
Qed.

Lemma runPass_ran (dom : Dom) (c : Closure) (w : World) :
  ran (runPass dom c w)
  = ran w ++ [{| ranGen := gen c; liveGen := live w;
                 ranPass := processFrame (cFile c) (cSettings c) dom |}].
Proof. unfold runPass. by destruct (requested _). Qed.

(** One refresh of a loop whose pending callback is the closure [c]. *)
Lemma frame_of_pending (dom : Dom) (h : Z) (c : Closure) (w : World) :
  callbacks w = [(h, c)] -> live w = Some (gen c) ->
  let w' := react w (AnimationFrame dom) in
  ran w' = ran w ++ [passOf (gen c) (cFile c) (cSettings c) dom] /\
  live w' = live w /\
  (requested (processFrame (cFile c) (cSettings c) dom) = true ->
   callbacks w' = [(lastHandle w + 1, c)]) /\
  (requested (processFrame (cFile c) (cSettings c) dom) = false -> callbacks w' = []).
Proof.
  intros Hone Hlive. cbv zeta. cbn [react]. rewrite Hone. cbn [fold_left snd].
  rewrite runPass_ran. cbn [ran live]. rewrite Hlive.
  unfold runPass. destruct (requested _); cbn; repeat split; done.
Qed.

(** The loop of closure [c] over refreshes whose passes all ask for the
    next frame. *)
Lemma frames_of_pending (doms : list Dom) (c : Closure) :
  Forall (fun dom => requested (processFrame (cFile c) (cSettings c) dom) = true) doms ->
  forall (h : Z) (w : World),
    callbacks w = [(h, c)] -> live w = Some (gen c) ->
    let w' := run (map AnimationFrame doms) w in
    ran w' = ran w ++ map (passOf (gen c) (cFile c) (cSettings c)) doms /\
    live w' = live w /\
    exists h', callbacks w' = [(h', c)].
Proof.
  induction 1 as [|dom doms Hreq _ IH]; intros h w Hone Hlive; cbv zeta.
  - cbn. rewrite app_nil_r. eauto.
  - cbn [map run fold_left].
    destruct (frame_of_pending dom h c w Hone Hlive) as (Hran & Hlive' & Hnext & _).
    specialize (Hnext Hreq).
    change (fold_left react (map AnimationFrame doms) (react w (AnimationFrame dom)))
      with (run (map AnimationFrame doms) (react w (AnimationFrame dom))).
    destruct (IH _ _ Hnext (eq_trans Hlive' Hlive)) as (Hran' & Hlive'' & Hcb).
    rewrite Hran', Hran, <- app_assoc. split; [done|]. split; [congruence|done].
Qed.

(** A commit of a video sets the loop up. *)
Lemma video_commit (file : option UploadedFile) (settings : RetroSettings) (dom : Dom)
      (w : World) :
  tidy w -> hasType file video = true ->
  let c := {| gen := commits w; cFile := file; cSettings := settings |} in
  let w' := react w (Commit file settings dom) in
  ran w' = ran w /\ live w' = Some (commits w) /\ exists h, callbacks w' = [(h, c)].
Proof.
  intros Htidy Hvideo. cbv zeta. cbn [react].
  destruct (commit_cleans w Htidy) as (_ & Hnone & Hcommits & Hran).
  unfold effect. cbn [cFile]. rewrite Hvideo, Hcommits.
  unfold requestAnimationFrame. cbn. rewrite Hnone, Hran. eauto.
Qed.

End LoopTraces.

(** X20. However the component was driven, at most one animation frame
    callback is pending, and a refresh runs at most one pass: commits do not
    pile up loops. *)
Theorem at_most_one_pass_per_refresh (es : list event) (dom : Dom) :
  let w := run es initial in
  (length (callbacks w) <= 1)%nat /\
  (length (ran (react w (AnimationFrame dom))) <= Datatypes.S (length (ran w)))%nat /\
  (length (callbacks (react w (AnimationFrame dom))) <= 1)%nat.
Proof.
  cbv zeta. pose proof (run_tidy es initial tidy_initial) as Htidy.
  split; [by apply pending_at_most_one|].
  split; [|by apply pending_at_most_one, react_tidy].
  destruct Htidy as (_ & [Hnone|(h & c & Hone & _)] & _); cbn [react].
  - rewrite Hnone. cbn. lia.
  - rewrite Hone. cbn [fold_left snd]. rewrite runPass_ran, length_app. cbn. lia.
Qed.

(** X21. A commit whose file is not a video (a still image, or no file)
    runs exactly one pass, at once, with the file and settings of that
    commit; nothing is pending afterwards, and later refreshes run nothing:
    a still image is processed once per change of its file or settings. *)
Theorem still_commit_runs_once (es : list event) (file : option UploadedFile)
        (settings : RetroSettings) (dom : Dom) :
  hasType file video = false ->
  let w := run es initial in
  let w' := react w (Commit file settings dom) in
  ran w' = ran w ++ [passOf (commits w) file settings dom] /\
  callbacks w' = [] /\
  forall doms, ran (run (map AnimationFrame doms) w') = ran w'.
Proof.
  intros Hstill. cbv zeta.
  pose proof (run_tidy es initial tidy_initial) as Htidy.
  set (w := run es initial) in *.
  destruct (commit_cleans w Htidy) as (Htidy' & Hnone & Hcommits & Hran).
  assert (Hcb : callbacks (react w (Commit file settings dom)) = []).
  { cbn [react]. by apply effect_tidy. }
  split; [|split; [exact Hcb|intros doms; by apply idle_frames]].
  cbn [react]. unfold effect. cbn [cFile]. rewrite Hstill, runPass_ran.
  cbn. by rewrite Hcommits, Hran.
Qed.

Lemma still_commit_runs_once_witness :
  let photo := {| url := "blob:photo"; type := Some image; name := "photo.png" |} in
  hasType (Some photo) video = false /\
  callbacks (react (run [Commit (Some clip) DEFAULT_SETTINGS (page 4 2 true)] initial)
                   (Commit (Some photo) DEFAULT_SETTINGS (page 4 2 true))) = [].
Proof.
  cbv zeta. split; [reflexivity|].
  exact (proj1 (proj2 (still_commit_runs_once
                         [Commit (Some clip) DEFAULT_SETTINGS (page 4 2 true)]
                         (Some {| url := "blob:photo"; type := Some image;
                                  name := "photo.png" |})
                         DEFAULT_SETTINGS (page 4 2 true) eq_refl))).
Defined.

(** X22. After a commit of a video, as long as every pass asks for the next
    frame, each refresh runs exactly one pass, with the file and settings of
    that commit on the page of that refresh, and one callback stays
    pending. *)
Theorem video_loop_steady (es : list event) (file : option UploadedFile)
        (settings : RetroSettings) (dom : Dom) (doms : list Dom) :
  hasType file video = true ->
  Forall (fun d => requested (processFrame file settings d) = true) doms ->
  let w := run es initial in
  let w' := run (Commit file settings dom :: map AnimationFrame doms) w in
  ran w' = ran w ++ map (passOf (commits w) file settings) doms /\
  exists h, callbacks w'
            = [(h, {| gen := commits w; cFile := file; cSettings := settings |})].
Proof.
  intros Hvideo Hreq. cbv zeta.
  pose proof (run_tidy es initial tidy_initial) as Htidy.
  set (w := run es initial) in *.
  destruct (video_commit file settings dom w Htidy Hvideo) as (Hran & Hlive & h & Hone).
  cbn [run fold_left].
  change (fold_left react (map AnimationFrame doms) (react w (Commit file settings dom)))
    with (run (map AnimationFrame doms) (react w (Commit file settings dom))).
  destruct (frames_of_pending doms
              {| gen := commits w; cFile := file; cSettings := settings |}
              Hreq h _ Hone Hlive) as (Hran' & _ & Hcb).
  cbn [gen cFile cSettings] in Hran'. rewrite Hran', Hran. by split.
Qed.

Lemma video_loop_steady_witness :
  let doms := [page 0 0 true; page 4 2 true; page 4 2 true] in
  hasType (Some clip) video = true /\
  Forall (fun d => requested (processFrame (Some clip) DEFAULT_SETTINGS d) = true) doms /\
  ran (run (Commit (Some clip) DEFAULT_SETTINGS (page 0 0 true) :: map AnimationFrame doms)
           (run [] initial))
  = ran (run [] initial) ++ map (passOf (commits (run [] initial)) (Some clip) DEFAULT_SETTINGS) doms.
Proof.
  cbv zeta.
  assert (Hreq : Forall (fun d => requested (processFrame (Some clip) DEFAULT_SETTINGS d) = true)
                        [page 0 0 true; page 4 2 true; page 4 2 true])
    by (repeat constructor).
  split; [reflexivity|]. split; [exact Hreq|].
  exact (proj1 (video_loop_steady [] (Some clip) DEFAULT_SETTINGS (page 0 0 true) _
                                  eq_refl Hreq)).
Defined.

(** X23. The loop of a video ends at the first pass that does not ask for
    the next frame: that pass is the last one to run, nothing is pending
    after it, and no later refresh runs a pass, whatever the page is then. *)
Theorem video_loop_ends_for_good (es : list event) (file : option UploadedFile)
        (settings : RetroSettings) (dom : Dom) (doms : list Dom) (last : Dom)
        (later : list Dom) :
  hasType file video = true ->
  Forall (fun d => requested (processFrame file settings d) = true) doms ->
  requested (processFrame file settings last) = false ->
  let w := run es initial in
  let w' := run (Commit file settings dom :: map AnimationFrame (doms ++ [last])) w in
  ran w' = ran w ++ map (passOf (commits w) file settings) (doms ++ [last]) /\
  callbacks w' = [] /\
  ran (run (map AnimationFrame later) w') = ran w'.
Proof.
  intros Hvideo Hreq Hlast. cbv zeta.
  pose proof (run_tidy es initial tidy_initial) as Htidy.
  set (w := run es initial) in *.
  destruct (video_commit file settings dom w Htidy Hvideo) as (Hran & Hlive & h & Hone).
  set (c := {| gen := commits w; cFile := file; cSettings := settings |}) in *.
  cbn [run fold_left]. rewrite map_app, fold_left_app. cbn [map fold_left].
  change (fold_left react (map AnimationFrame doms) (react w (Commit file settings dom)))
    with (run (map AnimationFrame doms) (react w (Commit file settings dom))).
  destruct (frames_of_pending doms c Hreq h _ Hone Hlive) as (Hran' & Hlive' & h' & Hone').
  destruct (frame_of_pending last h' c _ Hone' (eq_trans Hlive' Hlive))
    as (Hran'' & _ & _ & Hnone).
  specialize (Hnone Hlast).
  assert (Hall : ran (react (run (map AnimationFrame doms) (react w (Commit file settings dom)))
                            (AnimationFrame last))
                 = ran w ++ map (passOf (commits w) file settings) (doms ++ [last])).
  { rewrite Hran'', Hran', Hran, map_app, <- app_assoc. done. }
  split; [exact Hall|]. split; [exact Hnone|].
  change (fold_left react (map AnimationFrame later) ?x)
    with (run (map AnimationFrame later) x).
  by apply idle_frames.
Qed.

Lemma video_loop_ends_for_good_witness :
  hasType (Some clip) video = true /\
  Forall (fun d => requested (processFrame (Some clip) DEFAULT_SETTINGS d) = true)
         [page 4 2 true] /\
  requested (processFrame (Some clip) DEFAULT_SETTINGS unreadable) = false /\
  callbacks (run (Commit (Some clip) DEFAULT_SETTINGS (page 4 2 true)
                    :: map AnimationFrame ([page 4 2 true] ++ [unreadable]))
                 (run [] initial)) = [].
Proof.
  assert (Hreq : Forall (fun d => requested (processFrame (Some clip) DEFAULT_SETTINGS d) = true)
                        [page 4 2 true])
    by (repeat constructor).
  split; [reflexivity|]. split; [exact Hreq|]. split; [reflexivity|].
  exact (proj1 (proj2 (video_loop_ends_for_good [] (Some clip) DEFAULT_SETTINGS (page 4 2 true)
                                                [page 4 2 true] unreadable []
                                                eq_refl Hreq eq_refl))).
Defined.

(** ** The hex field of the colour pickers *)

Section HexField.

Ltac every_ascii c := destruct c as [[] [] [] [] [] [] [] []].

Lemma classMatches_fieldDigit (c : ascii) :
  classMatches true [("0", "9"); ("A", "F")]%char c = isHexDigit c.
Proof. every_ascii c; vm_compute; reflexivity. Qed.

Lemma field_anchored (input : list ascii) (fuel start : nat) :
  search fieldPattern input fuel (S start) = None.
Proof.
  revert start. induction fuel as [|fuel IH]; intros start; cbn [search];
    (replace (matchAt fieldPattern input (S start)) with (@None (list (option (list ascii))))
      by reflexivity); [reflexivity | apply IH].
Qed.

Lemma test_fieldPattern (s : string) :
  test fieldPattern s
  = match list_ascii_of_string s with
    | c :: body => Ascii.eqb c "#" && (length body =? 6)%nat && forallb isHexDigit body
    | [] => false
    end.
Proof.
  unfold test, exec.
  assert (Hsearch : forall input,
             search fieldPattern input (length input) 0 = matchAt fieldPattern input 0).
  { intros input. destruct (length input); cbn [search];
      destruct (matchAt fieldPattern input 0); try reflexivity. apply field_anchored. }
  rewrite Hsearch. unfold matchAt.
  destruct (list_ascii_of_string s) as [|c1 [|c2 [|c3 [|c4 [|c5 [|c6 [|c7 [|c8 l]]]]]]]].
  all: cbn -[classMatches canonicalize isHexDigit Ascii.eqb].
  all: rewrite ?classMatches_fieldDigit, ?canonical_hash.
  all: try destruct (Ascii.eqb c1 "#") eqn:Hhash.
  all: cbn -[classMatches canonicalize isHexDigit Ascii.eqb]; try reflexivity.
  all: repeat match goal with
         | |- context [isHexDigit ?c] => destruct (isHexDigit c) eqn:?
         end.
  all: cbn -[classMatches canonicalize isHexDigit Ascii.eqb]; try reflexivity.
Qed.

End HexField.

(** X24. The hex field hands a value to [onChange] only if it is [#]
    followed by exactly six hexadecimal digits, and then the value is the
    text itself; [hexToRgb] reads such a value as the three channels of its
    pairs of digits, so the field never stores a colour that the renderer
    would replace by black. Text of any other form is kept in the field and
    not handed on. *)
Theorem hex_field_hands_on_colours (newVal : string) :
  localHex (handleHexChange newVal) = newVal /\
  match changed (handleHexChange newVal) with
  | Some v =>
      v = newVal /\
      exists d1 d2 d3 d4 d5 d6,
        list_ascii_of_string v = ["#"%char; d1; d2; d3; d4; d5; d6] /\
        Forall (fun d => isHexDigit d = true) [d1; d2; d3; d4; d5; d6] /\
        hexToRgb v = {| r := ofZ (16 * hexValue d1 + hexValue d2);
                        g := ofZ (16 * hexValue d3 + hexValue d4);
                        b := ofZ (16 * hexValue d5 + hexValue d6) |}
  | None =>
      forall body, list_ascii_of_string newVal = "#"%char :: body ->
                   length body <> 6%nat \/ exists d, d ∈ body /\ isHexDigit d = false
  end.
Proof.
  split; [reflexivity|]. unfold handleHexChange. cbn [changed].
  rewrite test_fieldPattern.
  destruct (list_ascii_of_string newVal) as [|c body] eqn:Hval; [by intros body [=]|].
  destruct (Ascii.eqb_spec c "#") as [->|Hhash]; cbn [andb].
  2:{ intros body' [= -> _]. done. }
  destruct (Nat.eqb_spec (length body) 6) as [Hlen|Hlen]; cbn [andb].
  2:{ intros body' [= <-]. by left. }
  destruct (forallb isHexDigit body) eqn:Hall.
  - split; [reflexivity|].
    destruct body as [|d1 [|d2 [|d3 [|d4 [|d5 [|d6 [|d7 body]]]]]]]; try discriminate Hlen.
    exists d1, d2, d3, d4, d5, d6. split; [exact Hval|].
    pose proof (hexToRgb_sixHexDigits newVal) as Hrgb.
    unfold sixHexDigits in Hrgb. rewrite Hval in Hrgb.
    cbn [Ascii.eqb Bool.eqb] in Hrgb. cbn [length Nat.eqb andb] in Hrgb.
    rewrite Hall in Hrgb. split; [|exact Hrgb].
    rewrite forallb_forall in Hall. apply Forall_forall. intros d Hd.
    by apply Hall, list_elem_of_In.
  - intros body' [= <-]. right.
    apply not_true_iff_false in Hall. rewrite forallb_forall in Hall.
    destruct (existsb (fun d => negb (isHexDigit d)) body) eqn:Hex.
    + apply existsb_exists in Hex as (d & Hd & Hneg). exists d.
      split; [by apply list_elem_of_In|]. by destruct (isHexDigit d).
    + exfalso. apply Hall. intros d Hd.
      destruct (isHexDigit d) eqn:Hdig; [done|].
      assert (existsb (fun d => negb (isHexDigit d)) body = true); [|congruence].
      apply existsb_exists. exists d. by rewrite Hdig.
Qed.

(** X25. Typing in the text input, which shows the colour without its [#]
    and puts it back in front: the typed text is handed on, with the [#],
    exactly when it consists of six hexadecimal digits; anything shorter,
    or with another character, changes no setting. *)
Theorem hex_input_six_digits (typed : string) :
  changed (hexInput typed)
  = if ((String.length typed =? 6)%nat
        && forallb isHexDigit (list_ascii_of_string typed))%bool
    then Some (String "#" typed) else None.
Proof.
  unfold hexInput, handleHexChange. cbn [changed]. rewrite test_fieldPattern.
  cbn [list_ascii_of_string]. cbn [Ascii.eqb Bool.eqb andb].
  replace (length (list_ascii_of_string typed)) with (String.length typed); [done|].
  induction typed as [|c typed IH]; cbn; congruence.
Qed.

(** ** The object URLs of selected files *)

Section ObjectURLs.

Lemma app_react_revoked (s : App.State) (e : App.action) :
  App.revoked (App.handle s e) = App.revoked s.
Proof.
  unfold App.handle. destruct (negb _); [done|].
  destruct e as [selectedFile u| |]; [| |done]; by destruct (App.file s).
Qed.

Lemma app_react_typed (s : App.State) (e : App.action) :
  (forall f, App.file s = Some f -> url f ∈ App.created s /\ type f <> None) ->
  forall f, App.file (App.handle s e) = Some f ->
            url f ∈ App.created (App.handle s e) /\ type f <> None.
Proof.
  intros Hinv f. unfold App.handle. destruct (negb _); [apply Hinv|].
  destruct e as [selectedFile u| |].
  - destruct (App.file s) eqn:Hfile; [rewrite Hfile; apply Hinv|].
    cbn. intros [= <-]. cbn. split; [|by destruct (App.startsWith _ _)].
    apply elem_of_app. right. by apply list_elem_of_singleton.
  - destruct (App.file s) eqn:Hfile; [by cbn|]. rewrite Hfile. discriminate.
  - cbn. apply Hinv.
Qed.

Lemma app_cycle (selectedFile : App.File) (u : string) (s : App.State) :
  App.file s = None -> App.mounted s = true ->
  let s' := App.session [App.Select selectedFile u; App.CloseFile] s in
  App.file s' = None /\ App.mounted s' = true /\ App.created s' = App.created s ++ [u].
Proof.
  intros Hfile Hmounted. cbv zeta. cbn [App.session fold_left].
  assert (Hdrop : App.handle s (App.Select selectedFile u)
                  = App.handleFileSelect None selectedFile u s).
  { unfold App.handle. by rewrite Hmounted, Hfile. }
  rewrite Hdrop. unfold App.handle. cbn. by rewrite Hmounted.
Qed.

End ObjectURLs.

(** X26. The object URL of a selected file is never revoked. The dropzone
    is on the page only while no file is set, so the [handleFileSelect] it
    calls has captured no file to revoke; CLOSE only clears the state; and
    the clean-up on unmount has captured the initial state. Whatever the
    user does, [URL.revokeObjectURL] is not called for a file, the file
    shown is labelled image or video and its URL is one that was created;
    and selecting and closing a file once for each of [us] leaves exactly
    those URLs created, none revoked. *)
Theorem file_urls_never_revoked (es : list App.action) (selectedFile : App.File)
        (us : list string) :
  App.revoked (App.session es App.start) = [] /\
  (forall f, App.file (App.session es App.start) = Some f ->
             url f ∈ App.created (App.session es App.start) /\ type f <> None) /\
  App.created (App.session (App.cycles selectedFile us) App.start) = us.
Proof.
  split; [|split].
  - assert (H : forall s, App.revoked (App.session es s) = App.revoked s); [|apply H].
    induction es as [|e es IH]; intros s; [done|].
    cbn. unfold App.session in IH. by rewrite IH, app_react_revoked.
  - assert (H : forall s,
               (forall f, App.file s = Some f -> url f ∈ App.created s /\ type f <> None) ->
               forall f, App.file (App.session es s) = Some f ->
                         url f ∈ App.created (App.session es s) /\ type f <> None).
    { induction es as [|e es IH]; intros s Hinv; [done|].
      cbn. apply IH, app_react_typed, Hinv. }
    apply H. intros f [=].
  - assert (H : forall s, App.file s = None -> App.mounted s = true ->
                          let s' := App.session (App.cycles selectedFile us) s in
                          App.file s' = None /\ App.mounted s' = true /\
                          App.created s' = App.created s ++ us).
    { induction us as [|u us IH]; intros s Hfile Hmounted; cbv zeta.
      - cbn. by rewrite app_nil_r.
      - change (App.cycles selectedFile (u :: us))
          with ([App.Select selectedFile u; App.CloseFile] ++ App.cycles selectedFile us).
        unfold App.session. rewrite fold_left_app.
        destruct (app_cycle selectedFile u s Hfile Hmounted) as (Hfile' & Hmounted' & Hcreated).
        destruct (IH _ Hfile' Hmounted') as (? & ? & Hcreated').
        unfold App.session in *. rewrite Hcreated', Hcreated, <- app_assoc. done. }
    by destruct (H App.start eq_refl eq_refl) as (_ & _ & ->).
Qed.
